(** * The Lagrangian parcel integrator of specfabpy

    A shallow embedding of [src/specfabpy/integrator.py]: the function
    [lagrangianparcel] and its helper [M_REG_custom].

    - Numbers are elements of a type [C] with the operations the source
      applies to them (class [Num]).  The coefficient history is an array of
      [complex64]: what the source stores into it is converted to that type,
      which is the operation [c64] of the class.  The arithmetic between
      stores is that of [C]; statements that need it to be exact say so by
      the laws they assume.
    - Vectors are lists of numbers, matrices lists of rows.
    - The fabric library [sf] is a record of functions ([specfab]).
    - The caller's mode descriptor is a Python dict, modelled as a
      [gmap string pyval]; it is threaded through the call as state because
      the source writes to it.
    - Allocations of the returned arrays, calls of the library's operator
      constructors, row stores and progress reports are written to a log,
      so that their order can be stated. *)

From Stdlib Require Import ZArith QArith Qcanon Qcabs Qround Lia Ascii String.
From stdpp Require Import base gmap list strings pretty.

Local Open Scope string_scope.
Local Open Scope list_scope.
Local Open Scope nat_scope.

(** ** Numbers *)

Class Num (C : Type) := {
  of_nat : nat -> C;        (* a Python int used as a number *)
  cadd : C -> C -> C;
  cmul : C -> C -> C;
  cdiv : C -> C -> C;       (* [/] on numpy values; by zero it is what [C] makes of it *)
  cneg : C -> C;
  cabs : C -> C;            (* np.abs *)
  cpow : C -> C -> C;       (* np.power *)
  csqrt : C -> C;           (* np.sqrt *)
  cpi : C;                  (* np.pi *)
  num_str : C -> string;    (* '%s' % x *)
  c64 : C -> C;             (* the value as an entry of a complex64 array *)
  (* a value that has been stored is stored as it is, and so is zero *)
  c64_idem : forall x, c64 (c64 x) = c64 x;
  c64_0 : c64 (of_nat 0) = of_nat 0
}.

(** The laws of exact arithmetic that the no-op run relies on.  They are
    those of finite numbers: with the infinities of floating-point
    arithmetic the product of zero and a number need not be zero. *)
Class ZeroLaws (C : Type) `{Num C} : Prop := {
  cadd_0_r : forall x : C, cadd x (of_nat 0) = x;
  cmul_0_l : forall x : C, cmul (of_nat 0) x = of_nat 0;
  cmul_0_r : forall x : C, cmul x (of_nat 0) = of_nat 0
}.

(** ** Python values, exceptions, events *)

Inductive pyval (C : Type) :=
| PStr (s : string)
| PNum (c : C).
Arguments PStr {C} s.
Arguments PNum {C} c.

Inductive exn :=
| KeyError (key : string)
| ValueError (msg : string)
| TypeError (msg : string)
| IndexError
| ZeroDivisionError
| PyException (msg : string).

Inductive buffer := BufF | BufTime | BufNlm.

Inductive opname := OpREG | OpLmat | OpCDRX | OpLROT | OpDDRX.

Inductive event :=
| EvAlloc (b : buffer) (n : nat)   (* a returned array of n entries is created *)
| EvOperator (f : opname)          (* an operator constructor of the library is called *)
| EvStore (nt : nat)               (* row nt of the coefficient history is written *)
| EvBar.                           (* the progress bar is created or advanced *)

Inductive res (A : Type) :=
| Ok (a : A)
| Raise (e : exn).
Arguments Ok {A} a.
Arguments Raise {A} e.

(** ** The monad: the caller's dict as state, the log as output *)

Section Monad.
Context {C : Type}.

Definition M (A : Type) : Type :=
  gmap string (pyval C) -> res A * gmap string (pyval C) * list event.

Definition ret {A} (a : A) : M A := fun d => (Ok a, d, []).

Definition bind {A B} (m : M A) (k : A -> M B) : M B :=
  fun d =>
    match m d with
    | (Ok a, d1, l1) =>
        match k a d1 with
        | (r, d2, l2) => (r, d2, l1 ++ l2)
        end
    | (Raise e, d1, l1) => (Raise e, d1, l1)
    end.

Definition raise {A} (e : exn) : M A := fun d => (Raise e, d, []).

Definition tell (ev : event) : M unit := fun d => (Ok tt, d, [ev]).

(** [mod[k]] *)
Definition dict_get (k : string) : M (pyval C) :=
  fun d =>
    match d !! k with
    | Some v => (Ok v, d, [])
    | None => (Raise (KeyError k), d, [])
    end.

(** [k in mod] *)
Definition dict_has (k : string) : M bool :=
  fun d => (Ok (bool_decide (is_Some (d !! k))), d, []).

(** [mod[k] = v] *)
Definition dict_set (k : string) (v : pyval C) : M unit :=
  fun d => (Ok tt, <[k := v]> d, []).

Definition when (b : bool) (m : M unit) : M unit :=
  if b then m else ret tt.

Fixpoint foldM {A B} (f : B -> A -> M B) (l : list A) (b : B) : M B :=
  match l with
  | [] => ret b
  | a :: l' => bind (f b a) (foldM f l')
  end.
End Monad.

Notation "x <- c ;; k" := (bind c (fun x => k))
  (at level 100, c at next level, right associativity).
Notation "c ;;; k" := (bind c (fun _ => k))
  (at level 100, right associativity).

Definition res_of {C A} (x : res A * gmap string (pyval C) * list event) : res A :=
  x.1.1.
Definition dict_of {C A} (x : res A * gmap string (pyval C) * list event)
  : gmap string (pyval C) := x.1.2.
Definition log_of {C A} (x : res A * gmap string (pyval C) * list event)
  : list event := x.2.

(** ** numpy on lists *)

Section Numpy.
Context {C : Type} `{Num C}.

Definition zero : C := of_nat 0.

(** [np.zeros(n)] and [np.zeros((r,c))] *)
Definition np_zeros (n : nat) : list C := replicate n zero.
Definition np_zeros2 (r c : nat) : list (list C) := replicate r (np_zeros c).

(** elementwise [+] on operands of one shape *)
Definition vadd (u v : list C) : list C := zip_with cadd u v.
Definition madd (A B : list (list C)) : list (list C) := zip_with vadd A B.

(** scalar [*] array *)
Definition vscale (a : C) (v : list C) : list C := cmul a <$> v.
Definition mscale (a : C) (A : list (list C)) : list (list C) := vscale a <$> A.

(** array [/] scalar, and an elementwise function *)
Definition mmap (f : C -> C) (A : list (list C)) : list (list C) :=
  (fun row : list C => f <$> row) <$> A.
Definition mdiv (A : list (list C)) (a : C) : list (list C) :=
  mmap (fun x => cdiv x a) A.

Definition dot (u v : list C) : C := foldr cadd zero (zip_with cmul u v).

(** [np.matmul(M, v)] for a matrix and a vector *)
Definition matmul (A : list (list C)) (v : list C) : list C :=
  (fun row => dot row v) <$> A.

(** [np.linalg.norm(D)] with its default order on a real array:
    the array is flattened and the square root of its dot product with
    itself is taken (the Frobenius norm). *)
Definition linalg_norm (D : list (list C)) : C :=
  csqrt (dot (concat D) (concat D)).

(** [a[i,:]] *)
Definition get_row (a : list (list C)) (i : nat) : M (C:=C) (list C) :=
  match a !! i with
  | Some row => ret row
  | None => raise IndexError
  end.

(** [a[i,j] = x] for a complex64 array [a]: the value is stored converted. *)
Definition set_item (a : list (list C)) (i j : nat) (x : C)
  : M (C:=C) (list (list C)) :=
  match a !! i with
  | Some row =>
      if decide (j < length row) then ret (<[i := <[j := c64 x]> row]> a)
      else raise IndexError
  | None => raise IndexError
  end.

(** The message of numpy's [ValueError] for a one-dimensional value of [n]
    entries assigned to a row of [m] entries. *)
Definition broadcast_message (n m : nat) : string :=
  "could not broadcast input array from shape (" +:+ pretty n
    +:+ ",) into shape (" +:+ pretty m +:+ ",)".

(** [a[i,:] = v] for a complex64 array [a] and a one-dimensional [v]: numpy
    copies a value of the row's length, repeats a value of length one, and
    refuses any other length; what it stores is converted to complex64. *)
Definition set_row (a : list (list C)) (i : nat) (v : list C)
  : M (C:=C) (list (list C)) :=
  match a !! i with
  | Some row =>
      if decide (length v = length row) then ret (<[i := c64 <$> v]> a)
      else
        match v with
        | [x] => ret (<[i := replicate (length row) (c64 x)]> a)
        | _ => raise (ValueError (broadcast_message (length v) (length row)))
        end
  | None => raise IndexError
  end.
End Numpy.

(** ** The fabric library [sf]

    The library is not part of the integrator; its functions are taken as
    they are called.  The mode's geometric parameters and time scale are
    passed on as the dict holds them. *)

Record specfab (C : Type) := {
  sf_Lcap : nat;
  sf_nlm_len : nat;
  sf_simpleshear_gamma_to_t : C -> pyval C -> C;
  sf_simpleshear_F : pyval C -> pyval C -> C -> list (list C);
  sf_simpleshear_ugrad : pyval C -> pyval C -> list (list C);
  sf_pureshear_strainii_to_t : C -> pyval C -> C;
  sf_pureshear_F : pyval C -> pyval C -> pyval C -> C -> list (list C);
  sf_pureshear_ugrad : pyval C -> pyval C -> pyval C -> list (list C);
  sf_ugrad_to_D_and_W : list (list C) -> list (list C) * list (list C);
  sf_M_REG : list C -> list (list C) -> list (list C);
  sf_M_CDRX : list C -> list (list C);
  sf_M_LROT : list C -> list (list C) -> list (list C) -> C -> C -> list (list C);
  sf_M_DDRX : list C -> list (list C) -> list (list C);
  sf_Lmat : list C -> list (list C)
}.
Arguments sf_Lcap {C} _.
Arguments sf_nlm_len {C} _.
Arguments sf_simpleshear_gamma_to_t {C} _ _ _.
Arguments sf_simpleshear_F {C} _ _ _ _.
Arguments sf_simpleshear_ugrad {C} _ _ _.
Arguments sf_pureshear_strainii_to_t {C} _ _ _.
Arguments sf_pureshear_F {C} _ _ _ _ _.
Arguments sf_pureshear_ugrad {C} _ _ _ _.
Arguments sf_ugrad_to_D_and_W {C} _ _.
Arguments sf_M_REG {C} _ _ _.
Arguments sf_M_CDRX {C} _ _.
Arguments sf_M_LROT {C} _ _ _ _ _ _.
Arguments sf_M_DDRX {C} _ _ _.
Arguments sf_Lmat {C} _ _.

(** ** The arguments of [lagrangianparcel] other than [sf] and [mod] *)

Record params (C : Type) := {
  strain_target : C;
  Nt : nat;
  dt : option C;
  nlm0 : option (list C);
  verbose : bool;
  iota : option C;
  zeta : C;
  Lambda : option C;
  Gamma0 : option C;
  nu : option C;
  regexpo : option C;
  apply_bounds : bool
}.
Arguments strain_target {C} _.
Arguments Nt {C} _.
Arguments dt {C} _.
Arguments nlm0 {C} _.
Arguments verbose {C} _.
Arguments iota {C} _.
Arguments zeta {C} _.
Arguments Lambda {C} _.
Arguments Gamma0 {C} _.
Arguments nu {C} _.
Arguments regexpo {C} _.
Arguments apply_bounds {C} _.

(** What the call returns: [nlm, F, time, ugrad]. *)
Record output (C : Type) := {
  out_nlm : list (list C);
  out_F : list (list (list C));
  out_time : list C;
  out_ugrad : list (list C)
}.
Arguments out_nlm {C} _.
Arguments out_F {C} _.
Arguments out_time {C} _.
Arguments out_ugrad {C} _.

(** ** The integrator *)

Section Integrator.
Context {C : Type} `{Num C}.
Variable sf : specfab C.

Definition dq : string := String "034"%char EmptyString.

(** ['%s' % v] *)
Definition py_str (v : pyval C) : string :=
  match v with
  | PStr s => s
  | PNum c => num_str c
  end.

(** [v == 'tag'] *)
Definition is_tag (v : pyval C) (tag : string) : bool :=
  match v with
  | PStr s => bool_decide (s = tag)
  | PNum _ => false
  end.

(** [M_REG_custom(nu, expo, D, sf)].  The product [nu*np.linalg.norm(D)]
    is a type error when [nu] is [None]. *)
Definition M_REG_custom (nu : option C) (expo : C) (D : list (list C))
  : M (C:=C) (list (list C)) :=
  let L := sf_Lcap sf in
  let nlm_len := (L + 1) * (L + 2) / 2 in
  let nlm_dummy := np_zeros nlm_len in
  tell (EvOperator OpLmat) ;;;
  let Lm := mdiv (sf_Lmat sf nlm_dummy) (of_nat (L * (L + 1))) in
  match nu with
  | None =>
      raise (TypeError "unsupported operand type(s) for *: 'NoneType' and 'float'")
  | Some n =>
      let ratemag := cmul n (linalg_norm D) in
      ret (mscale (cneg ratemag) (mmap (fun x => cpow (cabs x) expo) Lm))
  end.

(** Line 17: [if not ('T' in mod): mod['T'] = 1]. *)
Definition default_T : M (C:=C) unit :=
  has <- dict_has "T" ;;
  if has then ret tt else dict_set "T" (PNum (of_nat 1)).

(** [x/Nt] for the time [x] that the library returns, a Python float, and
    the int [Nt]: the division by zero raises. *)
Definition divide_by_steps (x : C) (n : nat) : M (C:=C) C :=
  if decide (n = 0) then raise ZeroDivisionError
  else ret (cdiv x (of_nat n)).

(** Lines 19-36: the step size, the series of deformation gradients and
    the velocity gradient.  The source reads [mod['type']] in every
    comparison and the geometric entries in every turn of the list
    comprehension and again for [ugrad]; the dict does not change in
    between, so each is read here once, in the order of its first use.  An
    omitted step size is derived first, by a division that raises when
    there is no step. *)
Definition deformation (p : params C)
  : M (C:=C) (C * list (list (list C)) * list (list C)) :=
  ty <- dict_get "type" ;;
  if is_tag ty "simpleshear" || is_tag ty "ss" then
    dt' <- match dt p with
           | Some d => ret d
           | None =>
               T <- dict_get "T" ;;
               divide_by_steps (sf_simpleshear_gamma_to_t sf (strain_target p) T)
                 (Nt p)
           end ;;
    plane <- dict_get "plane" ;;
    T <- dict_get "T" ;;
    tell (EvAlloc BufF (Nt p + 1)) ;;;
    let F := (fun nt => sf_simpleshear_F sf plane T (cmul dt' (of_nat nt)))
               <$> seq 0 (Nt p + 1) in
    ret (dt', F, sf_simpleshear_ugrad sf plane T)
  else if is_tag ty "pureshear" || is_tag ty "ps" then
    dt' <- match dt p with
           | Some d => ret d
           | None =>
               T <- dict_get "T" ;;
               divide_by_steps (sf_pureshear_strainii_to_t sf (strain_target p) T)
                 (Nt p)
           end ;;
    axis <- dict_get "axis" ;;
    r <- dict_get "r" ;;
    T <- dict_get "T" ;;
    tell (EvAlloc BufF (Nt p + 1)) ;;;
    let F := (fun nt => sf_pureshear_F sf axis r T (cmul dt' (of_nat nt)))
               <$> seq 0 (Nt p + 1) in
    ret (dt', F, sf_pureshear_ugrad sf axis r T)
  else if is_tag ty "rigidrotation" || is_tag ty "rr" then
    raise (PyException ("type=" +:+ dq +:+ "rigidrotation" +:+ dq
                        +:+ " not yet supported"))
  else
    raise (ValueError ("Mode of deformation type=" +:+ dq +:+ py_str ty +:+ dq
                       +:+ " not supported")).

(** Lines 44-47: the coefficient history and its first row. *)
Definition isotropic_coefficient : C :=
  cdiv (of_nat 1) (csqrt (cmul (of_nat 4) cpi)).

Definition init_state (p : params C) : M (C:=C) (list (list C)) :=
  let nlm_len := sf_nlm_len sf in
  tell (EvAlloc BufNlm (Nt p + 1)) ;;;
  let nlm := np_zeros2 (Nt p + 1) nlm_len in
  match nlm0 p with
  | None => set_item nlm 0 0 isotropic_coefficient
  | Some v => set_row nlm 0 v
  end.

(** Lines 52-62: the steady operators. *)
Definition M_zero : list (list C) :=
  np_zeros2 (sf_nlm_len sf) (sf_nlm_len sf).

Definition regularization (p : params C) (nlm_dummy : list C) (D : list (list C))
  : M (C:=C) (list (list C)) :=
  match regexpo p with
  | None =>
      match nu p with
      | Some n => tell (EvOperator OpREG) ;;; ret (mscale n (sf_M_REG sf nlm_dummy D))
      | None => ret M_zero
      end
  | Some e => M_REG_custom (nu p) e D
  end.

Definition cdrx (p : params C) (nlm_dummy : list C) : M (C:=C) (list (list C)) :=
  match Lambda p with
  | Some l => tell (EvOperator OpCDRX) ;;; ret (mscale l (sf_M_CDRX sf nlm_dummy))
  | None => ret M_zero
  end.

Definition lattice_rotation (p : params C) (nlm_dummy : list C)
    (D W : list (list C)) : M (C:=C) (list (list C)) :=
  match iota p with
  | Some i => tell (EvOperator OpLROT) ;;;
              ret (sf_M_LROT sf nlm_dummy D W i (zeta p))
  | None => ret M_zero
  end.

(** Lines 70-71: the operator of one step, from the previous row. *)
Definition ddrx_term (p : params C) (S : list (list C)) (nlm_prev : list C)
  : list (list C) :=
  match Gamma0 p with
  | Some g => mscale g (sf_M_DDRX sf nlm_prev S)
  | None => M_zero
  end.

Definition step_operator (p : params C) (M_LROT M_CDRX M_REG S : list (list C))
    (nlm_prev : list C) : list (list C) :=
  madd (madd (madd M_LROT M_CDRX) M_REG) (ddrx_term p S nlm_prev).

(** Line 72: the right-hand side of the Euler update. *)
Definition euler (dt' : C) (Mop : list (list C)) (nlm_prev : list C) : list C :=
  vadd nlm_prev (vscale dt' (matmul Mop nlm_prev)).

(** Lines 69-74: the body of the loop. *)
Definition step (p : params C) (dt' : C) (M_LROT M_CDRX M_REG S : list (list C))
    (nlm : list (list C)) (nt : nat) : M (C:=C) (list (list C)) :=
  nlm_prev <- get_row nlm (nt - 1) ;;
  when (bool_decide (is_Some (Gamma0 p))) (tell (EvOperator OpDDRX)) ;;;
  let Mop := step_operator p M_LROT M_CDRX M_REG S nlm_prev in
  nlm' <- set_row nlm nt (euler dt' Mop nlm_prev) ;;
  tell (EvStore nt) ;;;
  when (verbose p) (tell EvBar) ;;;
  ret nlm'.

(** Lines 17-62: everything the source does before the loop. *)
Record prepared := {
  pr_dt : C;
  pr_F : list (list (list C));
  pr_ugrad : list (list C);
  pr_S : list (list C);
  pr_time : list C;
  pr_nlm : list (list C);
  pr_M_LROT : list (list C);
  pr_M_CDRX : list (list C);
  pr_M_REG : list (list C)
}.

Definition setup (p : params C) : M (C:=C) prepared :=
  default_T ;;;
  tr <- deformation p ;;
  let '(dt', F, ugrad) := tr in
  let '(D, W) := sf_ugrad_to_D_and_W sf ugrad in
  let S := D in
  tell (EvAlloc BufTime (Nt p + 1)) ;;;
  let time := (fun k => cmul dt' (of_nat k)) <$> seq 0 (Nt p + 1) in
  nlm <- init_state p ;;
  nlm_dummy <- get_row nlm 0 ;;
  M_REG <- regularization p nlm_dummy D ;;
  M_CDRX <- cdrx p nlm_dummy ;;
  M_LROT <- lattice_rotation p nlm_dummy D W ;;
  ret {| pr_dt := dt'; pr_F := F; pr_ugrad := ugrad; pr_S := S;
         pr_time := time; pr_nlm := nlm;
         pr_M_LROT := M_LROT; pr_M_CDRX := M_CDRX; pr_M_REG := M_REG |}.

Definition lagrangianparcel (p : params C) : M (C:=C) (output C) :=
  s <- setup p ;;
  when (verbose p) (tell EvBar) ;;;
  nlm <- foldM (step p (pr_dt s) (pr_M_LROT s) (pr_M_CDRX s) (pr_M_REG s) (pr_S s))
               (seq 1 (Nt p)) (pr_nlm s) ;;
  ret {| out_nlm := nlm; out_F := pr_F s; out_time := pr_time s;
         out_ugrad := pr_ugrad s |}.

(** A call on the caller's dict ([mod] in the source). *)
Definition call (mode : gmap string (pyval C)) (p : params C) :=
  lagrangianparcel p mode.
End Integrator.

(** ** Vocabulary of the statements *)

Section Vocabulary.
Context {C : Type} `{Num C}.
Variable sf : specfab C.
Implicit Types (d mode : gmap string (pyval C)) (p : params C).

(** [A] is an [r] by [c] array. *)
Definition shape (r c : nat) (A : list (list C)) : Prop :=
  length A = r /\ Forall (fun row => length row = c) A.

(** The contract of the library on shapes (spec, sections 3 and 8): the
    number of coefficients is that of the truncation degree, and every
    operator built for a state of that length is square of that size.  On
    such operands numpy's [+] and [matmul] are the elementwise sum and the
    row-by-vector products of section Numpy. *)
Record sf_shaped : Prop := {
  shaped_len : sf_nlm_len sf = (sf_Lcap sf + 1) * (sf_Lcap sf + 2) / 2;
  shaped_REG : forall v D, length v = sf_nlm_len sf ->
    shape (sf_nlm_len sf) (sf_nlm_len sf) (sf_M_REG sf v D);
  shaped_CDRX : forall v, length v = sf_nlm_len sf ->
    shape (sf_nlm_len sf) (sf_nlm_len sf) (sf_M_CDRX sf v);
  shaped_LROT : forall v D W i z, length v = sf_nlm_len sf ->
    shape (sf_nlm_len sf) (sf_nlm_len sf) (sf_M_LROT sf v D W i z);
  shaped_DDRX : forall v S, length v = sf_nlm_len sf ->
    shape (sf_nlm_len sf) (sf_nlm_len sf) (sf_M_DDRX sf v S);
  shaped_Lmat : forall v, length v = sf_nlm_len sf ->
    shape (sf_nlm_len sf) (sf_nlm_len sf) (sf_Lmat sf v)
}.

(** Modelled from the spec: the constructors of the three steady operators
    are library code that is not part of the integrator.  Section 4.3 of
    the spec says that they are given a state purely to infer the shape of
    the arrays: states of one length give one operator. *)
Definition shape_only : Prop :=
  forall v v' : list C, length v = length v' ->
    (forall D, sf_M_REG sf v D = sf_M_REG sf v' D)
    /\ sf_M_CDRX sf v = sf_M_CDRX sf v'
    /\ (forall D W i z, sf_M_LROT sf v D W i z = sf_M_LROT sf v' D W i z).

(** The caller's dict after line 17. *)
Definition with_T mode : gmap string (pyval C) :=
  match mode !! "T" with
  | Some _ => mode
  | None => <["T" := PNum (of_nat 1)]> mode
  end.

Definition is_ss (ty : pyval C) : bool := is_tag ty "simpleshear" || is_tag ty "ss".
Definition is_ps (ty : pyval C) : bool := is_tag ty "pureshear" || is_tag ty "ps".
Definition is_rr (ty : pyval C) : bool := is_tag ty "rigidrotation" || is_tag ty "rr".

(** The dict names a supported mode and holds its geometric parameters. *)
Definition mode_ok d : bool :=
  match d !! "type" with
  | Some ty =>
      if is_ss ty then bool_decide (is_Some (d !! "plane"))
      else if is_ps ty then
        bool_decide (is_Some (d !! "axis")) && bool_decide (is_Some (d !! "r"))
      else false
  | None => false
  end.

(** The initial vector is absent, or has the length of a row or length one. *)
Definition nlm0_ok p : bool :=
  match nlm0 p with
  | None => bool_decide (0 < sf_nlm_len sf)
  | Some v => bool_decide (length v = sf_nlm_len sf \/ length v = 1)
  end.

(** The custom regularization is not asked for without [nu]. *)
Definition reg_ok p : bool :=
  match regexpo p, nu p with
  | Some _, None => false
  | _, _ => true
  end.

Definition runnable mode p : bool :=
  mode_ok mode && nlm0_ok p && reg_ok p.

(** An entry of the dict. *)
Definition entry d (k : string) : pyval C :=
  default (PNum (of_nat 0)) (d !! k).

Definition simple d : bool :=
  match d !! "type" with
  | Some ty => is_ss ty
  | None => false
  end.

(** The library's conversion of the target strain to a time. *)
Definition strain_to_time d p : C :=
  if simple d
  then sf_simpleshear_gamma_to_t sf (strain_target p) (entry d "T")
  else sf_pureshear_strainii_to_t sf (strain_target p) (entry d "T").

Definition step_size d p : C :=
  match dt p with
  | Some x => x
  | None => cdiv (strain_to_time d p) (of_nat (Nt p))
  end.

Definition gradient_at d (t : C) : list (list C) :=
  if simple d
  then sf_simpleshear_F sf (entry d "plane") (entry d "T") t
  else sf_pureshear_F sf (entry d "axis") (entry d "r") (entry d "T") t.

Definition gradient_series d p : list (list (list C)) :=
  (fun nt => gradient_at d (cmul (step_size d p) (of_nat nt))) <$> seq 0 (Nt p + 1).

Definition velocity_gradient d : list (list C) :=
  if simple d
  then sf_simpleshear_ugrad sf (entry d "plane") (entry d "T")
  else sf_pureshear_ugrad sf (entry d "axis") (entry d "r") (entry d "T").

Definition strain_rate d : list (list C) :=
  (sf_ugrad_to_D_and_W sf (velocity_gradient d)).1.

Definition spin d : list (list C) :=
  (sf_ugrad_to_D_and_W sf (velocity_gradient d)).2.

Definition time_stamps d p : list C :=
  (fun k => cmul (step_size d p) (of_nat k)) <$> seq 0 (Nt p + 1).

(** Row 0 of the history for an accepted initial vector, as it is stored. *)
Definition initial_row p : list C :=
  match nlm0 p with
  | None => <[0 := c64 isotropic_coefficient]> (np_zeros (sf_nlm_len sf))
  | Some v =>
      if decide (length v = sf_nlm_len sf) then c64 <$> v
      else replicate (sf_nlm_len sf) (c64 (hd zero v))
  end.

(** What the steady operators and the loop write to the log. *)
Definition reg_log p : list event :=
  match regexpo p with
  | None => match nu p with Some _ => [EvOperator OpREG] | None => [] end
  | Some _ => [EvOperator OpLmat]
  end.

Definition cdrx_log p : list event :=
  match Lambda p with Some _ => [EvOperator OpCDRX] | None => [] end.

Definition lrot_log p : list event :=
  match iota p with Some _ => [EvOperator OpLROT] | None => [] end.

Definition setup_log p : list event :=
  EvAlloc BufF (Nt p + 1) :: EvAlloc BufTime (Nt p + 1)
    :: EvAlloc BufNlm (Nt p + 1) :: reg_log p ++ cdrx_log p ++ lrot_log p.

Definition step_log p (nt : nat) : list event :=
  (if bool_decide (is_Some (Gamma0 p)) then [EvOperator OpDDRX] else [])
    ++ EvStore nt :: (if verbose p then [EvBar] else []).

Definition loop_log p (j k : nat) : list event :=
  flat_map (step_log p) (seq j k).

Definition bar_log p : list event :=
  if verbose p then [EvBar] else [].

(** A steady operator is built: the event of one of the constructors that
    do not depend on the evolving state. *)
Definition is_steady_call (ev : event) : bool :=
  match ev with
  | EvOperator OpREG | EvOperator OpLmat | EvOperator OpCDRX
  | EvOperator OpLROT => true
  | _ => false
  end.

(** The same arguments with other flags, or another initial vector. *)
Definition with_flags p (v b : bool) : params C :=
  {| strain_target := strain_target p; Nt := Nt p; dt := dt p; nlm0 := nlm0 p;
     verbose := v; iota := iota p; zeta := zeta p; Lambda := Lambda p;
     Gamma0 := Gamma0 p; nu := nu p; regexpo := regexpo p; apply_bounds := b |}.

Definition with_nlm0 p (v : option (list C)) : params C :=
  {| strain_target := strain_target p; Nt := Nt p; dt := dt p; nlm0 := v;
     verbose := verbose p; iota := iota p; zeta := zeta p; Lambda := Lambda p;
     Gamma0 := Gamma0 p; nu := nu p; regexpo := regexpo p;
     apply_bounds := apply_bounds p |}.

(** The operator of the custom regularization for a number [n]. *)
Definition custom_operator (n expo : C) (D : list (list C)) : list (list C) :=
  let L := sf_Lcap sf in
  mscale (cneg (cmul n (linalg_norm D)))
    (mmap (fun x => cpow (cabs x) expo)
       (mdiv (sf_Lmat sf (np_zeros ((L + 1) * (L + 2) / 2))) (of_nat (L * (L + 1))))).

(** What the source has computed when it enters the loop, for the dict [d]
    left by line 17. *)
Record prepared_ok d p (s : prepared) : Prop := {
  ok_dt : pr_dt s = step_size d p;
  ok_F : pr_F s = gradient_series d p;
  ok_ugrad : pr_ugrad s = velocity_gradient d;
  ok_S : pr_S s = strain_rate d;
  ok_time : pr_time s = time_stamps d p;
  ok_nlm : pr_nlm s = <[0 := initial_row p]> (np_zeros2 (Nt p + 1) (sf_nlm_len sf));
  ok_REG : regularization sf p (initial_row p) (strain_rate d) d
           = (Ok (pr_M_REG s), d, reg_log p);
  ok_CDRX : cdrx sf p (initial_row p) d = (Ok (pr_M_CDRX s), d, cdrx_log p);
  ok_LROT : lattice_rotation sf p (initial_row p) (strain_rate d) (spin d) d
            = (Ok (pr_M_LROT s), d, lrot_log p);
  ok_shape_REG : shape (sf_nlm_len sf) (sf_nlm_len sf) (pr_M_REG s);
  ok_shape_CDRX : shape (sf_nlm_len sf) (sf_nlm_len sf) (pr_M_CDRX s);
  ok_shape_LROT : shape (sf_nlm_len sf) (sf_nlm_len sf) (pr_M_LROT s)
}.

(** The row that follows [nlm_prev], as it is stored. *)
Definition next p (dt' : C) (M_LROT M_CDRX M_REG S : list (list C))
    (nlm_prev : list C) : list C :=
  c64 <$> euler dt' (step_operator sf p M_LROT M_CDRX M_REG S nlm_prev) nlm_prev.
End Vocabulary.

(** ** Effects of a computation *)

Section Effects.
Context {C : Type}.

(** [m] leaves the caller's dict as it found it. *)
Definition preserves {A} (m : M (C:=C) A) : Prop :=
  forall d, dict_of (m d) = d.

(** [m1] and [m2] return the same and leave the same dict; their logs may
    differ. *)
Definition same_result {A} (m1 m2 : M (C:=C) A) : Prop :=
  forall d, res_of (m1 d) = res_of (m2 d) /\ dict_of (m1 d) = dict_of (m2 d).
End Effects.

(** ** Vocabulary of the statements on whole runs *)

(** What lines 19-36 make of the dict's type. *)
Inductive mode_kind :=
| NoType
| SimpleShear
| PureShear
| RigidRotation
| Unsupported (text : string).

Section Runs.
Context {C : Type} `{Num C}.
Variable sf : specfab C.
Implicit Types (d mode : gmap string (pyval C)) (p : params C).

(** The first geometric entry that a dict of type [ty] lacks, in the order
    in which lines 22 and 28 read them. *)
Definition missing_geometry d (ty : pyval C) : option string :=
  if is_ss ty then
    match d !! "plane" with
    | None => Some "plane"
    | Some _ => None
    end
  else if is_ps ty then
    match d !! "axis" with
    | None => Some "axis"
    | Some _ =>
        match d !! "r" with
        | None => Some "r"
        | Some _ => None
        end
    end
  else None.

(** The division of lines 21 and 27 is not by zero: the step size is
    supplied, or there is at least one step. *)
Definition step_size_defined p : bool :=
  match dt p with
  | Some _ => true
  | None => bool_decide (Nt p <> 0)
  end.

(** The arguments that the source accepts. *)
Definition accepted mode p : bool :=
  runnable sf mode p && step_size_defined p.

Definition kind_of d : mode_kind :=
  match d !! "type" with
  | None => NoType
  | Some ty =>
      if is_ss ty then SimpleShear
      else if is_ps ty then PureShear
      else if is_rr ty then RigidRotation
      else Unsupported (py_str ty)
  end.

(** Two dicts name one mode: their types are of one kind, and they hold
    the same under the other keys that the source reads. *)
Definition same_mode d1 d2 : Prop :=
  kind_of d1 = kind_of d2
  /\ d1 !! "T" = d2 !! "T"
  /\ d1 !! "plane" = d2 !! "plane"
  /\ d1 !! "axis" = d2 !! "axis"
  /\ d1 !! "r" = d2 !! "r".

(** The keys of the dict that the source reads. *)
Definition keys_read : list string := ["type"; "T"; "plane"; "axis"; "r"].

(** The same arguments with another target strain, another [zeta] or
    another number of steps. *)
Definition with_strain p (x : C) : params C :=
  {| strain_target := x; Nt := Nt p; dt := dt p; nlm0 := nlm0 p;
     verbose := verbose p; iota := iota p; zeta := zeta p; Lambda := Lambda p;
     Gamma0 := Gamma0 p; nu := nu p; regexpo := regexpo p;
     apply_bounds := apply_bounds p |}.

Definition with_zeta p (z : C) : params C :=
  {| strain_target := strain_target p; Nt := Nt p; dt := dt p; nlm0 := nlm0 p;
     verbose := verbose p; iota := iota p; zeta := z; Lambda := Lambda p;
     Gamma0 := Gamma0 p; nu := nu p; regexpo := regexpo p;
     apply_bounds := apply_bounds p |}.

Definition with_Nt p (n : nat) : params C :=
  {| strain_target := strain_target p; Nt := n; dt := dt p; nlm0 := nlm0 p;
     verbose := verbose p; iota := iota p; zeta := zeta p; Lambda := Lambda p;
     Gamma0 := Gamma0 p; nu := nu p; regexpo := regexpo p;
     apply_bounds := apply_bounds p |}.

(** The rows that a log reports as stored, in the order of the stores. *)
Definition stored_rows (log : list event) : list nat :=
  omap (fun ev => match ev with EvStore nt => Some nt | _ => None end) log.

Definition is_bar (ev : event) : bool :=
  match ev with
  | EvBar => true
  | _ => false
  end.

Definition is_migration_call (ev : event) : bool :=
  match ev with
  | EvOperator OpDDRX => true
  | _ => false
  end.

(** [m] does not read the caller's dict: it returns and logs the same on
    every dict. *)
Definition blind {A} (m : M (C:=C) A) : Prop :=
  forall d1 d2, res_of (m d1) = res_of (m d2) /\ log_of (m d1) = log_of (m d2).

(** Every event that [m] logs satisfies [P], whatever the outcome. *)
Definition logs_only {A} (P : event -> Prop) (m : M (C:=C) A) : Prop :=
  forall d, Forall P (log_of (m d)).
End Runs.

(** Two libraries that are the same in everything that a call with the
    arguments [p] asks of them: the functions of the mode of deformation, and
    the constructors of the processes that are on. *)
Definition same_library_for {C : Type} (p : params C) (sf1 sf2 : specfab C) : Prop :=
  sf_Lcap sf1 = sf_Lcap sf2
  /\ sf_nlm_len sf1 = sf_nlm_len sf2
  /\ sf_simpleshear_gamma_to_t sf1 = sf_simpleshear_gamma_to_t sf2
  /\ sf_simpleshear_F sf1 = sf_simpleshear_F sf2
  /\ sf_simpleshear_ugrad sf1 = sf_simpleshear_ugrad sf2
  /\ sf_pureshear_strainii_to_t sf1 = sf_pureshear_strainii_to_t sf2
  /\ sf_pureshear_F sf1 = sf_pureshear_F sf2
  /\ sf_pureshear_ugrad sf1 = sf_pureshear_ugrad sf2
  /\ sf_ugrad_to_D_and_W sf1 = sf_ugrad_to_D_and_W sf2
  /\ (regexpo p = None -> is_Some (nu p) -> sf_M_REG sf1 = sf_M_REG sf2)
  /\ (is_Some (regexpo p) -> sf_Lmat sf1 = sf_Lmat sf2)
  /\ (is_Some (Lambda p) -> sf_M_CDRX sf1 = sf_M_CDRX sf2)
  /\ (is_Some (iota p) -> sf_M_LROT sf1 = sf_M_LROT sf2)
  /\ (is_Some (Gamma0 p) -> sf_M_DDRX sf1 = sf_M_DDRX sf2).

(** The laws of exact arithmetic that the superposition of runs relies on:
    sums and products are those of a ring, and every number is stored as it
    is. *)
Class SumLaws (C : Type) `{Num C} : Prop := {
  cadd_comm : forall x y : C, cadd x y = cadd y x;
  cadd_assoc : forall x y z : C, cadd x (cadd y z) = cadd (cadd x y) z;
  cadd_0_0 : cadd (of_nat 0) (of_nat 0) = of_nat 0 :> C;
  cmul_add_r : forall x y z : C, cmul x (cadd y z) = cadd (cmul x y) (cmul x z);
  c64_exact : forall x : C, c64 x = x
}.

(** ** An exact instance: rational numbers and a small library

    Used to run the integrator on concrete inputs.  The numbers are the
    canonical rationals; the square root and the power are rounded to
    rationals and pi is a rational approximation, none of which the
    statements below depend on.  Every rational is taken to be a value of
    the storage type: the conversion is the identity.  The library has
    truncation degree 2, hence six coefficients, and diagonal operators. *)

Module Exact.
Local Open Scope Qc_scope.

Definition qsqrt (x : Qc) : Qc :=
  Q2Qc (Z.sqrt (Qnum x) # Pos.sqrt (Qden x)).

Definition qpow (x e : Qc) : Qc :=
  Qcpower x (Z.to_nat (Qfloor e)).

Definition qstr (x : Qc) : string :=
  pretty (Qnum x) +:+ "/" +:+ pretty (Zpos (Qden x)).

Definition qnat (n : nat) : Qc := Q2Qc (inject_Z (Z.of_nat n)).

#[global] Instance num_Qc : Num Qc := {|
  of_nat := qnat;
  cadd := Qcplus;
  cmul := Qcmult;
  cdiv := Qcdiv;
  cneg := Qcopp;
  cabs := Qcabs;
  cpow := qpow;
  csqrt := qsqrt;
  cpi := Q2Qc (355 # 113);
  num_str := qstr;
  c64 := fun x => x;
  c64_idem := fun x => eq_refl;
  c64_0 := eq_refl
|}.

(** The number held by a dict entry. *)
Definition num (v : pyval Qc) : Qc :=
  match v with
  | PNum c => c
  | PStr _ => 0
  end.

(** The [n] by [n] diagonal matrix with entries [f 0], [f 1], ... *)
Definition diag (n : nat) (f : nat -> Qc) : list (list Qc) :=
  (fun i => (fun j => if decide (i = j) then f i else 0) <$> seq 0 n) <$> seq 0 n.

Definition shear (a : Qc) : list (list Qc) :=
  [[0; 0; a]; [0; 0; 0]; [0; 0; 0]].

Definition stretch (a b c : Qc) : list (list Qc) :=
  [[a; 0; 0]; [0; b; 0]; [0; 0; c]].

Definition halve (u : list (list Qc)) : list (list Qc) :=
  mdiv u (qnat 2).

Definition transpose3 (u : list (list Qc)) : list (list Qc) :=
  (fun j => (fun row => nth j row 0) <$> u) <$> seq 0 3.

Definition sf : specfab Qc := {|
  sf_Lcap := 2;
  sf_nlm_len := 6;
  sf_simpleshear_gamma_to_t := fun gamma T => num T * gamma;
  sf_simpleshear_F := fun plane T t => madd (stretch 1 1 1) (shear (t / num T));
  sf_simpleshear_ugrad := fun plane T => shear (1 / num T);
  sf_pureshear_strainii_to_t := fun e T => num T * e;
  sf_pureshear_F := fun axis r T t =>
    stretch (1 + t / num T) (1 + num r * t / num T) 1;
  sf_pureshear_ugrad := fun axis r T =>
    stretch (1 / num T) (num r / num T) (- (1 + num r) / num T);
  sf_ugrad_to_D_and_W := fun u =>
    (halve (madd u (transpose3 u)),
     halve (madd u (mscale (-1) (transpose3 u))));
  sf_M_REG := fun nlm D => diag (length nlm) (fun i => - qnat (i * (i + 1)));
  sf_M_CDRX := fun nlm => diag (length nlm) (fun i => - qnat i);
  sf_M_LROT := fun nlm D W iota zeta =>
    diag (length nlm) (fun i => iota * qnat i + zeta);
  sf_M_DDRX := fun nlm S => diag (length nlm) (fun i => nth i nlm 0);
  sf_Lmat := fun nlm => diag (length nlm) (fun i => - qnat (i * (i + 1)))
|}.

Definition ss_mode : gmap string (pyval Qc) :=
  {[ "type" := PStr "ss"; "plane" := PNum (qnat 0); "T" := PNum (qnat 1) ]}.

Definition ss_mode_no_T : gmap string (pyval Qc) :=
  {[ "type" := PStr "ss"; "plane" := PNum (qnat 0) ]}.

(** The defaults of the source, for a target strain and a step count. *)
Definition defaults (strain : Qc) (steps : nat) : params Qc := {|
  strain_target := strain;
  Nt := steps;
  dt := None;
  nlm0 := None;
  verbose := true;
  iota := None;
  zeta := 0;
  Lambda := None;
  Gamma0 := None;
  nu := None;
  regexpo := None;
  apply_bounds := false
|}.

(** A run of five steps to the shear angle 1/10 with every process off. *)
Definition quiet : params Qc := defaults (Q2Qc (1 # 10)) 5.

(** The same run with every process on and the custom regularization. *)
Definition busy : params Qc := {|
  strain_target := Q2Qc (1 # 10);
  Nt := 5;
  dt := None;
  nlm0 := None;
  verbose := true;
  iota := Some 1;
  zeta := 0;
  Lambda := Some (Q2Qc (1 # 10));
  Gamma0 := Some (Q2Qc (1 # 2));
  nu := Some (Q2Qc (1 # 100));
  regexpo := Some (qnat 2);
  apply_bounds := false
|}.

(** The quiet run from a vector of two coefficients, where six are due. *)
Definition short_start : params Qc :=
  with_nlm0 quiet (Some [qnat 1; qnat 2]).

(** The quiet run from a vector of one coefficient. *)
Definition single_start : params Qc :=
  with_nlm0 quiet (Some (qnat 7 :: nil)).

(** A vector of six coefficients. *)
Definition six : list Qc :=
  [qnat 1; qnat 2; qnat 3; qnat 4; qnat 5; qnat 6].

(** The quiet run with the custom exponent 2 and no [nu]. *)
Definition custom_without_nu : params Qc := {|
  strain_target := Q2Qc (1 # 10);
  Nt := 5;
  dt := None;
  nlm0 := None;
  verbose := true;
  iota := None;
  zeta := 0;
  Lambda := None;
  Gamma0 := None;
  nu := None;
  regexpo := Some (qnat 2);
  apply_bounds := false
|}.

Definition cylinder_mode : gmap string (pyval Qc) :=
  {[ "type" := PStr "cylinder"; "plane" := PNum (qnat 0) ]}.

(** A dict without a type, and a pure shear without its ratio [r]. *)
Definition untyped_mode : gmap string (pyval Qc) :=
  {[ "plane" := PNum (qnat 0); "T" := PNum (qnat 1) ]}.

Definition ps_mode_without_r : gmap string (pyval Qc) :=
  {[ "type" := PStr "ps"; "axis" := PNum (qnat 2) ]}.

(** The simple shear with an entry that the source does not read. *)
Definition annotated_mode : gmap string (pyval Qc) :=
  <["note" := PStr "run 7"]> ss_mode.

(** The same arguments with a supplied step size. *)
Definition with_dt (p : params Qc) (x : Qc) : params Qc :=
  {| strain_target := strain_target p; Nt := Nt p; dt := Some x; nlm0 := nlm0 p;
     verbose := verbose p; iota := iota p; zeta := zeta p; Lambda := Lambda p;
     Gamma0 := Gamma0 p; nu := nu p; regexpo := regexpo p;
     apply_bounds := apply_bounds p |}.

(** The busy run with the step size 1/50, and with the step size zero. *)
Definition paced : params Qc := with_dt busy (Q2Qc (1 # 50)).

Definition frozen : params Qc := with_dt busy (qnat 0).

(** The paced run without migration recrystallization. *)
Definition linear : params Qc := {|
  strain_target := Q2Qc (1 # 10);
  Nt := 5;
  dt := Some (Q2Qc (1 # 50));
  nlm0 := None;
  verbose := true;
  iota := Some 1;
  zeta := 0;
  Lambda := Some (Q2Qc (1 # 10));
  Gamma0 := None;
  nu := Some (Q2Qc (1 # 100));
  regexpo := Some (qnat 2);
  apply_bounds := false
|}.

(** Another vector of six coefficients. *)
Definition six' : list Qc :=
  [qnat 6; qnat 5; qnat 4; qnat 3; qnat 2; qnat 1].

(** The library with another constructor of the migration operator. *)
Definition sf_other_migration : specfab Qc := {|
  sf_Lcap := sf_Lcap sf;
  sf_nlm_len := sf_nlm_len sf;
  sf_simpleshear_gamma_to_t := sf_simpleshear_gamma_to_t sf;
  sf_simpleshear_F := sf_simpleshear_F sf;
  sf_simpleshear_ugrad := sf_simpleshear_ugrad sf;
  sf_pureshear_strainii_to_t := sf_pureshear_strainii_to_t sf;
  sf_pureshear_F := sf_pureshear_F sf;
  sf_pureshear_ugrad := sf_pureshear_ugrad sf;
  sf_ugrad_to_D_and_W := sf_ugrad_to_D_and_W sf;
  sf_M_REG := sf_M_REG sf;
  sf_M_CDRX := sf_M_CDRX sf;
  sf_M_LROT := sf_M_LROT sf;
  sf_M_DDRX := fun nlm S => diag (length nlm) (fun i => qnat 7);
  sf_Lmat := sf_Lmat sf
|}.

(** The run from two coefficients, where six are due, with the custom
    exponent and no [nu]. *)
Definition short_start_custom : params Qc :=
  with_nlm0 custom_without_nu (Some [qnat 1; qnat 2]).

(** The library with a constructor of the recrystallization operator that
    reads the state it is given, and not only its shape. *)
Definition sf_reading_state : specfab Qc := {|
  sf_Lcap := sf_Lcap sf;
  sf_nlm_len := sf_nlm_len sf;
  sf_simpleshear_gamma_to_t := sf_simpleshear_gamma_to_t sf;
  sf_simpleshear_F := sf_simpleshear_F sf;
  sf_simpleshear_ugrad := sf_simpleshear_ugrad sf;
  sf_pureshear_strainii_to_t := sf_pureshear_strainii_to_t sf;
  sf_pureshear_F := sf_pureshear_F sf;
  sf_pureshear_ugrad := sf_pureshear_ugrad sf;
  sf_ugrad_to_D_and_W := sf_ugrad_to_D_and_W sf;
  sf_M_REG := sf_M_REG sf;
  sf_M_CDRX := fun nlm => diag (length nlm) (fun i => nth i nlm 0);
  sf_M_LROT := sf_M_LROT sf;
  sf_M_DDRX := sf_M_DDRX sf;
  sf_Lmat := sf_Lmat sf
|}.

End Exact.

(** ** An instance with non-finite numbers

    The rationals with the infinities and the not-a-number of
    floating-point arithmetic, in which [0 * inf] is not a number and a sum
    with not-a-number is not a number.  Used to run the integrator from an
    initial vector that holds an infinity.  The library is the one of the
    exact instance, read on these numbers. *)

Module NonFinite.
Local Open Scope Qc_scope.

Inductive xnum :=
| Fin (q : Qc)
| Inf (negative : bool)
| NaN.

Definition xzero (x : xnum) : bool :=
  match x with
  | Fin q => bool_decide (q = 0)
  | _ => false
  end.

Definition xneg_sign (x : xnum) : bool :=
  match x with
  | Fin q => bool_decide (q < 0)
  | Inf s => s
  | NaN => false
  end.

Definition xadd (x y : xnum) : xnum :=
  match x, y with
  | NaN, _ | _, NaN => NaN
  | Fin a, Fin b => Fin (a + b)
  | Inf s, Fin _ | Fin _, Inf s => Inf s
  | Inf s, Inf s' => if bool_decide (s = s') then Inf s else NaN
  end.

Definition xmul (x y : xnum) : xnum :=
  match x, y with
  | NaN, _ | _, NaN => NaN
  | Fin a, Fin b => Fin (a * b)
  | Inf _, _ | _, Inf _ =>
      if xzero x || xzero y then NaN else Inf (xorb (xneg_sign x) (xneg_sign y))
  end.

Definition xdiv (x y : xnum) : xnum :=
  match x, y with
  | NaN, _ | _, NaN => NaN
  | Fin a, Fin b =>
      if bool_decide (b = 0)
      then (if bool_decide (a = 0) then NaN else Inf (bool_decide (a < 0)))
      else Fin (a / b)
  | Fin _, Inf _ => Fin 0
  | Inf s, Fin _ => Inf (xorb s (xneg_sign y))
  | Inf _, Inf _ => NaN
  end.

Definition xopp (x : xnum) : xnum :=
  match x with
  | Fin a => Fin (- a)
  | Inf s => Inf (negb s)
  | NaN => NaN
  end.

Definition xabs (x : xnum) : xnum :=
  match x with
  | Fin a => Fin (Qcabs a)
  | Inf _ => Inf false
  | NaN => NaN
  end.

Definition xsqrt (x : xnum) : xnum :=
  match x with
  | Fin a => if bool_decide (a < 0) then NaN else Fin (Exact.qsqrt a)
  | Inf false => Inf false
  | _ => NaN
  end.

(** The power, for the natural exponents that the exact instance has. *)
Definition xpow (x e : xnum) : xnum :=
  match e with
  | Fin b =>
      match Z.to_nat (Qfloor b) with
      | O => Fin 1
      | S n =>
          match x with
          | Fin a => Fin (Qcpower a (S n))
          | Inf s => Inf (s && Nat.odd (S n))
          | NaN => NaN
          end
      end
  | _ => NaN
  end.

Definition xstr (x : xnum) : string :=
  match x with
  | Fin a => Exact.qstr a
  | Inf false => "inf"
  | Inf true => "-inf"
  | NaN => "nan"
  end.

#[global] Instance num_xnum : Num xnum := {|
  of_nat := fun n => Fin (Exact.qnat n);
  cadd := xadd;
  cmul := xmul;
  cdiv := xdiv;
  cneg := xopp;
  cabs := xabs;
  cpow := xpow;
  csqrt := xsqrt;
  cpi := Fin (Q2Qc (355 # 113));
  num_str := xstr;
  c64 := fun x => x;
  c64_idem := fun x => eq_refl;
  c64_0 := eq_refl
|}.

(** The library of the exact instance has operators that do not depend on
    the numbers of the state; here they are read entry by entry. *)
Definition lift (A : list (list Qc)) : list (list xnum) :=
  (fun row : list Qc => Fin <$> row) <$> A.

Definition finite (x : xnum) : Qc :=
  match x with
  | Fin a => a
  | _ => 0
  end.

Definition lower (A : list (list xnum)) : list (list Qc) :=
  (fun row : list xnum => finite <$> row) <$> A.

Definition value (v : pyval xnum) : pyval Qc :=
  match v with
  | PStr s => PStr s
  | PNum c => PNum (finite c)
  end.

Definition sf : specfab xnum := {|
  sf_Lcap := 2;
  sf_nlm_len := 6;
  sf_simpleshear_gamma_to_t := fun gamma T =>
    Fin (sf_simpleshear_gamma_to_t Exact.sf (finite gamma) (value T));
  sf_simpleshear_F := fun plane T t =>
    lift (sf_simpleshear_F Exact.sf (value plane) (value T) (finite t));
  sf_simpleshear_ugrad := fun plane T =>
    lift (sf_simpleshear_ugrad Exact.sf (value plane) (value T));
  sf_pureshear_strainii_to_t := fun e T =>
    Fin (sf_pureshear_strainii_to_t Exact.sf (finite e) (value T));
  sf_pureshear_F := fun axis r T t =>
    lift (sf_pureshear_F Exact.sf (value axis) (value r) (value T) (finite t));
  sf_pureshear_ugrad := fun axis r T =>
    lift (sf_pureshear_ugrad Exact.sf (value axis) (value r) (value T));
  sf_ugrad_to_D_and_W := fun u =>
    let DW := sf_ugrad_to_D_and_W Exact.sf (lower u) in (lift DW.1, lift DW.2);
  sf_M_REG := fun nlm D => lift (sf_M_REG Exact.sf (finite <$> nlm) (lower D));
  sf_M_CDRX := fun nlm => lift (sf_M_CDRX Exact.sf (finite <$> nlm));
  sf_M_LROT := fun nlm D W iota zeta =>
    lift (sf_M_LROT Exact.sf (finite <$> nlm) (lower D) (lower W)
            (finite iota) (finite zeta));
  sf_M_DDRX := fun nlm S => lift (sf_M_DDRX Exact.sf (finite <$> nlm) (lower S));
  sf_Lmat := fun nlm => lift (sf_Lmat Exact.sf (finite <$> nlm))
|}.

Definition ss_mode : gmap string (pyval xnum) :=
  {[ "type" := PStr "ss"; "plane" := PNum (Fin 0); "T" := PNum (Fin 1) ]}.

End NonFinite.

(** ** Running a computation *)

Section MonadFacts.
Context {C : Type}.
Implicit Types d : gmap string (pyval C).

Lemma bind_ok {A B} (m : M A) (k : A -> M B) d a d1 l1 b d2 l2 :
  m d = (Ok a, d1, l1) ->
  k a d1 = (b, d2, l2) ->
  bind m k d = (b, d2, l1 ++ l2).
Proof. intros Hm Hk. unfold bind. rewrite Hm, Hk. reflexivity. Qed.

Lemma bind_raise {A B} (m : M A) (k : A -> M B) d e d1 l1 :
  m d = (Raise e, d1, l1) ->
  bind m k d = (Raise e, d1, l1).
Proof. intros Hm. unfold bind. rewrite Hm. reflexivity. Qed.

Lemma bind_cong {A B} (m m' : M A) (k : A -> M B) d d' :
  m d = m' d' -> bind m k d = bind m' k d'.
Proof. intros Hm. unfold bind. by rewrite Hm. Qed.

Lemma when_run (b : bool) (ev : event) d :
  when b (tell ev) d = (Ok tt, d, if b then [ev] else []).
Proof. destruct b; reflexivity. Qed.
End MonadFacts.

(** ** Shapes *)

Section Shapes.
Context {C : Type} `{Num C}.
Implicit Types (u v : list C) (A B : list (list C)).

Lemma length_vadd u v : length (vadd u v) = min (length u) (length v).
Proof. apply length_zip_with. Qed.

Lemma length_madd A B : length (madd A B) = min (length A) (length B).
Proof. apply length_zip_with. Qed.

Lemma length_vscale a v : length (vscale a v) = length v.
Proof. apply length_fmap. Qed.

Lemma length_mscale a A : length (mscale a A) = length A.
Proof. apply length_fmap. Qed.

Lemma length_matmul A v : length (matmul A v) = length A.
Proof. apply length_fmap. Qed.

Lemma length_np_zeros n : length (np_zeros n) = n.
Proof. apply length_replicate. Qed.

Lemma length_np_zeros2 r c : length (np_zeros2 r c) = r.
Proof. apply length_replicate. Qed.

Lemma shape_np_zeros2 r c : shape r c (np_zeros2 r c).
Proof.
  split; [apply length_replicate|].
  apply Forall_replicate, length_np_zeros.
Qed.

Lemma shape_mscale a r c A : shape r c A -> shape r c (mscale a A).
Proof.
  intros [Hr Hc]. split; [by rewrite length_mscale|].
  unfold mscale. apply Forall_fmap. eapply Forall_impl; [exact Hc|].
  intros row Hrow. simpl. by rewrite length_vscale.
Qed.

Lemma shape_mmap f r c A : shape r c A -> shape r c (mmap f A).
Proof.
  intros [Hr Hc]. split; [unfold mmap; by rewrite length_fmap|].
  unfold mmap. apply Forall_fmap. eapply Forall_impl; [exact Hc|].
  intros row Hrow. simpl. by rewrite length_fmap.
Qed.

Lemma shape_madd r c A B : shape r c A -> shape r c B -> shape r c (madd A B).
Proof.
  intros [HrA HcA] [HrB HcB]. split.
  - rewrite length_madd. lia.
  - unfold madd. apply Forall_lookup. intros i row Hi.
    apply lookup_zip_with_Some in Hi as (x & y & -> & Hx & Hy).
    rewrite length_vadd.
    rewrite (Forall_lookup_1 _ _ _ _ HcA Hx), (Forall_lookup_1 _ _ _ _ HcB Hy). lia.
Qed.

Lemma length_euler a A v : length A = length v -> length (euler a A v) = length v.
Proof.
  intros HA. unfold euler. rewrite length_vadd, length_vscale, length_matmul. lia.
Qed.
End Shapes.

(** ** The stepping loop *)

Section Loop.
Context {C : Type} `{Num C}.
Variable sf : specfab C.
Variable p : params C.
Variables (dt' : C) (M_LROT M_CDRX M_REG Sx : list (list C)).
Implicit Types (d : gmap string (pyval C)) (nlm : list (list C)).

Local Abbreviation next := (next sf p dt' M_LROT M_CDRX M_REG Sx).
Local Abbreviation step_log := (step_log p).
Local Abbreviation loop_log := (loop_log p).

Lemma step_run nlm nt d nlm_prev row :
  nlm !! (nt - 1) = Some nlm_prev ->
  nlm !! nt = Some row ->
  length (next nlm_prev) = length row ->
  step sf p dt' M_LROT M_CDRX M_REG Sx nlm nt d
  = (Ok (<[nt := next nlm_prev]> nlm), d, step_log nt).
Proof.
  intros Hprev Hrow Hlen.
  assert (Hlen' : length (euler dt' (step_operator sf p M_LROT M_CDRX M_REG Sx nlm_prev)
                            nlm_prev) = length row).
  { rewrite <- Hlen. symmetry. apply length_fmap. }
  unfold step, bind, get_row. rewrite Hprev. simpl.
  rewrite when_run. unfold set_row. rewrite Hrow. fold (next nlm_prev).
  destruct (decide _) as [_|Hne]; [|done].
  simpl. rewrite when_run. unfold step_log. by rewrite app_nil_r.
Qed.

Lemma loop_run (n : nat) :
  (forall v, length v = n -> length (next v) = n) ->
  forall k j nlm d,
    1 <= j -> j + k <= length nlm ->
    Forall (fun row => length row = n) nlm ->
    exists nlm',
      foldM (step sf p dt' M_LROT M_CDRX M_REG Sx) (seq j k) nlm d
      = (Ok nlm', d, loop_log j k)
      /\ length nlm' = length nlm
      /\ Forall (fun row => length row = n) nlm'
      /\ (forall i, i < j -> nlm' !! i = nlm !! i)
      /\ (forall i, j <= i < j + k ->
            exists v, nlm' !! (i - 1) = Some v /\ nlm' !! i = Some (next v)).
Proof.
  intros Hnext. induction k as [|k IH]; intros j nlm d Hj Hk Hall.
  - exists nlm. simpl. repeat split; auto. intros i Hi. lia.
  - destruct (lookup_lt_is_Some_2 nlm (j - 1)) as [v Hv]; [lia|].
    destruct (lookup_lt_is_Some_2 nlm j) as [row Hrow]; [lia|].
    assert (Hlv : length v = n) by exact (Forall_lookup_1 _ _ _ _ Hall Hv).
    assert (Hlr : length row = n) by exact (Forall_lookup_1 _ _ _ _ Hall Hrow).
    assert (Hstep := step_run nlm j d v row Hv Hrow).
    rewrite Hnext, Hlr in Hstep by done. specialize (Hstep eq_refl).
    destruct (IH (S j) (<[j := next v]> nlm) d) as (nlm' & Hrun & Hlen & Hall' & Hlow & Hrec).
    + lia.
    + rewrite length_insert. lia.
    + apply Forall_insert; [done|]. by apply Hnext.
    + exists nlm'. split; [|split; [|split; [|split]]].
      * simpl. erewrite bind_ok; [reflexivity|exact Hstep|exact Hrun].
      * by rewrite Hlen, length_insert.
      * exact Hall'.
      * intros i Hi. rewrite Hlow by lia. apply list_lookup_insert_ne. lia.
      * intros i Hi. destruct (decide (i = j)) as [->|Hne].
        -- exists v. split.
           ++ rewrite Hlow by lia. rewrite list_lookup_insert_ne by lia. exact Hv.
           ++ rewrite Hlow by lia. apply list_lookup_insert_eq. lia.
        -- apply Hrec. lia.
Qed.
End Loop.

(** ** The stages before the loop *)

Section Stages.
Context {C : Type} `{Num C}.
Variable sf : specfab C.
Implicit Types (d mode : gmap string (pyval C)) (p : params C).

Lemma default_T_run mode : default_T mode = (Ok tt, with_T mode, []).
Proof.
  unfold default_T, bind, dict_has, with_T.
  destruct (mode !! "T") as [v|] eqn:HT; reflexivity.
Qed.

Lemma lookup_with_T mode : is_Some (with_T mode !! "T").
Proof.
  unfold with_T. destruct (mode !! "T") as [v|] eqn:HT.
  - rewrite HT. eauto.
  - rewrite lookup_insert_eq. eauto.
Qed.

Lemma lookup_with_T_ne mode k : k <> "T" -> with_T mode !! k = mode !! k.
Proof.
  intros Hk. unfold with_T. destruct (mode !! "T"); [done|].
  by rewrite lookup_insert_ne.
Qed.

Lemma with_T_idem mode : with_T (with_T mode) = with_T mode.
Proof.
  destruct (lookup_with_T mode) as [v Hv]. unfold with_T at 1. by rewrite Hv.
Qed.

Lemma mode_ok_with_T mode : mode_ok (with_T mode) = mode_ok mode.
Proof. unfold mode_ok. by rewrite !lookup_with_T_ne. Qed.

Lemma dict_get_run d k v : d !! k = Some v -> dict_get k d = (Ok v, d, []).
Proof. intros Hk. unfold dict_get. by rewrite Hk. Qed.

Lemma entry_lookup d k v : d !! k = Some v -> entry d k = v.
Proof. intros Hk. unfold entry. by rewrite Hk. Qed.

Lemma divide_by_steps_run (x : C) n d :
  n <> 0 -> divide_by_steps x n d = (Ok (cdiv x (of_nat n)), d, []).
Proof. intros Hn. unfold divide_by_steps. by destruct (decide (n = 0)). Qed.

Lemma divide_by_steps_zero (x : C) d :
  divide_by_steps x 0 d = (Raise ZeroDivisionError, d, []).
Proof. reflexivity. Qed.

Lemma step_size_defined_steps p : Nt p <> 0 -> step_size_defined p = true.
Proof.
  intros HNt. unfold step_size_defined. destruct (dt p); [done|].
  by apply bool_decide_eq_true_2.
Qed.

Lemma step_size_defined_supplied p x : dt p = Some x -> step_size_defined p = true.
Proof. intros Hdt. unfold step_size_defined. by rewrite Hdt. Qed.

Lemma deformation_run d p :
  mode_ok d = true -> is_Some (d !! "T") -> step_size_defined p = true ->
  deformation sf p d
  = (Ok (step_size sf d p, gradient_series sf d p, velocity_gradient sf d), d,
     [EvAlloc BufF (Nt p + 1)]).
Proof.
  intros Hok [T HT] Hdef. unfold mode_ok in Hok.
  assert (Hdiv : forall x : C, dt p = None ->
            divide_by_steps x (Nt p) d = (Ok (cdiv x (of_nat (Nt p))), d, [])).
  { intros x Hdt. apply divide_by_steps_run. unfold step_size_defined in Hdef.
    rewrite Hdt in Hdef. by apply bool_decide_eq_true_1 in Hdef. }
  destruct (d !! "type") as [ty|] eqn:Hty; [|discriminate].
  unfold deformation, gradient_series, gradient_at, velocity_gradient,
    step_size, strain_to_time, simple.
  rewrite Hty. unfold bind at 1. rewrite (dict_get_run _ _ _ Hty).
  fold (is_ss ty) (is_ps ty) (is_rr ty).
  destruct (is_ss ty) eqn:Hss.
  - apply bool_decide_eq_true_1 in Hok as [plane Hplane].
    rewrite !(entry_lookup _ _ _ HT), (entry_lookup _ _ _ Hplane).
    unfold bind. destruct (dt p) as [x|]; simpl;
      repeat (first [ rewrite (dict_get_run _ _ _ HT)
                    | rewrite (dict_get_run _ _ _ Hplane)
                    | rewrite Hdiv by done ]; simpl);
      reflexivity.
  - destruct (is_ps ty) eqn:Hps; [|discriminate].
    apply andb_true_iff in Hok as [Haxis Hr].
    apply bool_decide_eq_true_1 in Haxis as [axis Haxis].
    apply bool_decide_eq_true_1 in Hr as [r Hr].
    rewrite !(entry_lookup _ _ _ HT), (entry_lookup _ _ _ Haxis),
      (entry_lookup _ _ _ Hr).
    unfold bind. destruct (dt p) as [x|]; simpl;
      repeat (first [ rewrite (dict_get_run _ _ _ HT)
                    | rewrite (dict_get_run _ _ _ Haxis)
                    | rewrite (dict_get_run _ _ _ Hr)
                    | rewrite Hdiv by done ]; simpl);
      reflexivity.
Qed.

Lemma lookup_np_zeros2 r c i : i < r -> np_zeros2 r c !! i = Some (np_zeros c).
Proof. intros Hi. unfold np_zeros2. by apply lookup_replicate_2. Qed.

Lemma length_initial_row p : nlm0_ok sf p = true -> length (initial_row sf p) = sf_nlm_len sf.
Proof.
  unfold nlm0_ok, initial_row. destruct (nlm0 p) as [v|]; intros Hok.
  - destruct (decide (length v = sf_nlm_len sf)); [by rewrite length_fmap|]. apply length_replicate.
  - rewrite length_insert. apply length_np_zeros.
Qed.

(** A row of the history is stored: converting it again changes nothing. *)
Lemma c64_fmap_idem (v : list C) : c64 <$> (c64 <$> v) = c64 <$> v.
Proof.
  rewrite <- list_fmap_compose. apply list_fmap_ext. intros i x _. simpl.
  apply c64_idem.
Qed.

Lemma c64_np_zeros n : c64 <$> np_zeros n = np_zeros n.
Proof. unfold np_zeros, zero. by rewrite fmap_replicate, c64_0. Qed.

Lemma c64_initial_row p : c64 <$> initial_row sf p = initial_row sf p.
Proof.
  unfold initial_row. destruct (nlm0 p) as [v|].
  - destruct (decide (length v = sf_nlm_len sf)).
    + apply c64_fmap_idem.
    + by rewrite fmap_replicate, c64_idem.
  - by rewrite list_fmap_insert, c64_np_zeros, c64_idem.
Qed.

Lemma c64_next p dt' A B R S v :
  c64 <$> next sf p dt' A B R S v = next sf p dt' A B R S v.
Proof. apply c64_fmap_idem. Qed.

Lemma init_state_run p d :
  nlm0_ok sf p = true ->
  init_state sf p d
  = (Ok (<[0 := initial_row sf p]> (np_zeros2 (Nt p + 1) (sf_nlm_len sf))), d,
     [EvAlloc BufNlm (Nt p + 1)]).
Proof.
  intros Hok. unfold init_state, bind, tell, nlm0_ok, initial_row in *.
  destruct (nlm0 p) as [v|].
  - apply bool_decide_eq_true_1 in Hok.
    unfold set_row. rewrite lookup_np_zeros2 by lia. rewrite length_np_zeros.
    destruct (decide (length v = sf_nlm_len sf)) as [Hv|Hv]; [reflexivity|].
    destruct Hok as [Hv'|Hv']; [done|].
    destruct v as [|x [|y v]]; try discriminate. reflexivity.
  - apply bool_decide_eq_true_1 in Hok.
    unfold set_item. rewrite lookup_np_zeros2 by lia. rewrite length_np_zeros.
    destruct (decide (0 < sf_nlm_len sf)); [reflexivity|done].
Qed.

Lemma shape_M_zero : shape (sf_nlm_len sf) (sf_nlm_len sf) (M_zero sf).
Proof. apply shape_np_zeros2. Qed.

Lemma M_REG_custom_run n expo D d :
  M_REG_custom sf (Some n) expo D d
  = (Ok (custom_operator sf n expo D), d, [EvOperator OpLmat]).
Proof. reflexivity. Qed.

Lemma M_REG_custom_None expo D d :
  M_REG_custom sf None expo D d
  = (Raise (TypeError "unsupported operand type(s) for *: 'NoneType' and 'float'"),
     d, [EvOperator OpLmat]).
Proof. reflexivity. Qed.

Lemma regularization_run p v D d :
  sf_shaped sf -> reg_ok p = true -> length v = sf_nlm_len sf ->
  exists A, regularization sf p v D d = (Ok A, d, reg_log p)
            /\ shape (sf_nlm_len sf) (sf_nlm_len sf) A.
Proof.
  intros Hsf Hok Hv. unfold regularization, reg_ok, reg_log in *.
  destruct (regexpo p) as [e|], (nu p) as [n|]; try discriminate.
  - eexists. split; [apply M_REG_custom_run|].
    unfold custom_operator. apply shape_mscale, shape_mmap. unfold mdiv.
    apply shape_mmap, (shaped_Lmat sf Hsf).
    rewrite length_np_zeros. symmetry. apply (shaped_len sf Hsf).
  - eexists. split; [reflexivity|]. apply shape_mscale, (shaped_REG sf Hsf), Hv.
  - eexists. split; [reflexivity|]. apply shape_M_zero.
Qed.

Lemma cdrx_run p v d :
  sf_shaped sf -> length v = sf_nlm_len sf ->
  exists A, cdrx sf p v d = (Ok A, d, cdrx_log p)
            /\ shape (sf_nlm_len sf) (sf_nlm_len sf) A.
Proof.
  intros Hsf Hv. unfold cdrx, cdrx_log. destruct (Lambda p) as [l|].
  - eexists. split; [reflexivity|]. apply shape_mscale, (shaped_CDRX sf Hsf), Hv.
  - eexists. split; [reflexivity|]. apply shape_M_zero.
Qed.

Lemma lattice_rotation_run p v D W d :
  sf_shaped sf -> length v = sf_nlm_len sf ->
  exists A, lattice_rotation sf p v D W d = (Ok A, d, lrot_log p)
            /\ shape (sf_nlm_len sf) (sf_nlm_len sf) A.
Proof.
  intros Hsf Hv. unfold lattice_rotation, lrot_log. destruct (iota p) as [i|].
  - eexists. split; [reflexivity|]. apply (shaped_LROT sf Hsf), Hv.
  - eexists. split; [reflexivity|]. apply shape_M_zero.
Qed.
End Stages.

(** ** The whole call *)

Section Call.
Context {C : Type} `{Num C}.
Variable sf : specfab C.
Implicit Types (d mode : gmap string (pyval C)) (p : params C).

Lemma runnable_inv mode p :
  runnable sf mode p = true ->
  mode_ok mode = true /\ nlm0_ok sf p = true /\ reg_ok p = true.
Proof.
  unfold runnable. intros Hr.
  apply andb_true_iff in Hr as [Hr Hreg]. apply andb_true_iff in Hr as [Hm Hn].
  auto.
Qed.

Lemma setup_run mode p :
  sf_shaped sf -> runnable sf mode p = true -> step_size_defined p = true ->
  exists s, setup sf p mode = (Ok s, with_T mode, setup_log p)
            /\ prepared_ok sf (with_T mode) p s.
Proof.
  intros Hsf Hrun Hdef. apply runnable_inv in Hrun as (Hm & Hn & Hreg).
  set (d := with_T mode).
  assert (Hlen : length (initial_row sf p) = sf_nlm_len sf)
    by exact (length_initial_row sf p Hn).
  destruct (regularization_run sf p (initial_row sf p) (strain_rate sf d) d Hsf Hreg Hlen)
    as (MR & HR & HsR).
  destruct (cdrx_run sf p (initial_row sf p) d Hsf Hlen) as (MC & HC & HsC).
  destruct (lattice_rotation_run sf p (initial_row sf p) (strain_rate sf d)
              (spin sf d) d Hsf Hlen) as (ML & HL & HsL).
  exists {| pr_dt := step_size sf d p; pr_F := gradient_series sf d p;
            pr_ugrad := velocity_gradient sf d; pr_S := strain_rate sf d;
            pr_time := time_stamps sf d p;
            pr_nlm := <[0 := initial_row sf p]> (np_zeros2 (Nt p + 1) (sf_nlm_len sf));
            pr_M_LROT := ML; pr_M_CDRX := MC; pr_M_REG := MR |}.
  split; [|by constructor].
  unfold setup, bind. rewrite default_T_run. fold d.
  rewrite deformation_run;
    [| unfold d; by rewrite mode_ok_with_T | apply lookup_with_T | done].
  unfold strain_rate, spin in *.
  destruct (sf_ugrad_to_D_and_W sf (velocity_gradient sf d)) as [D W]. simpl in *.
  rewrite init_state_run by done. unfold get_row.
  rewrite list_lookup_insert_eq by (rewrite length_np_zeros2; lia).
  simpl. rewrite HR, HC, HL. simpl.
  unfold setup_log, time_stamps. by rewrite app_nil_r.
Qed.

(** With the custom exponent set and [nu] omitted, every call that reaches
    the steady operators raises the type error of [M_REG_custom]. *)
Lemma custom_regularization_needs_nu mode p e :
  mode_ok mode = true -> nlm0_ok sf p = true -> step_size_defined p = true ->
  regexpo p = Some e -> nu p = None ->
  res_of (call sf mode p)
  = Raise (TypeError "unsupported operand type(s) for *: 'NoneType' and 'float'").
Proof.
  intros Hm Hn Hdef He Hnu. unfold call, lagrangianparcel.
  erewrite bind_raise; [reflexivity|].
  unfold setup, bind. rewrite default_T_run.
  rewrite deformation_run;
    [| by rewrite mode_ok_with_T | apply lookup_with_T | done].
  destruct (sf_ugrad_to_D_and_W sf (velocity_gradient sf (with_T mode))) as [D W].
  simpl. rewrite init_state_run by done. unfold get_row.
  rewrite list_lookup_insert_eq by (rewrite length_np_zeros2; lia).
  simpl. unfold regularization. rewrite He, Hnu, M_REG_custom_None. reflexivity.
Qed.

Lemma length_step_operator p A B R S v :
  sf_shaped sf ->
  length A = sf_nlm_len sf -> length B = sf_nlm_len sf -> length R = sf_nlm_len sf ->
  length v = sf_nlm_len sf ->
  length (step_operator sf p A B R S v) = sf_nlm_len sf.
Proof.
  intros Hsf HA HB HR Hv. unfold step_operator, ddrx_term.
  rewrite !length_madd, HA, HB, HR.
  destruct (Gamma0 p) as [g|].
  - rewrite length_mscale. destruct (shaped_DDRX sf Hsf v S Hv) as [-> _]. lia.
  - unfold M_zero. rewrite length_np_zeros2. lia.
Qed.

Lemma call_run mode p :
  sf_shaped sf -> runnable sf mode p = true -> step_size_defined p = true ->
  exists s nlm,
    setup sf p mode = (Ok s, with_T mode, setup_log p)
    /\ prepared_ok sf (with_T mode) p s
    /\ call sf mode p
       = (Ok {| out_nlm := nlm; out_F := pr_F s; out_time := pr_time s;
                out_ugrad := pr_ugrad s |},
          with_T mode, setup_log p ++ bar_log p ++ loop_log p 1 (Nt p))
    /\ shape (Nt p + 1) (sf_nlm_len sf) nlm
    /\ nlm !! 0 = Some (initial_row sf p)
    /\ (forall t, 1 <= t <= Nt p ->
          exists v, nlm !! (t - 1) = Some v
                    /\ nlm !! t = Some (next sf p (pr_dt s) (pr_M_LROT s) (pr_M_CDRX s)
                                          (pr_M_REG s) (pr_S s) v)).
Proof.
  intros Hsf Hrun Hdef. destruct (setup_run mode p Hsf Hrun Hdef) as (s & Hs & Hok).
  apply runnable_inv in Hrun as (Hm & Hn & Hreg).
  assert (Hrow : length (initial_row sf p) = sf_nlm_len sf)
    by exact (length_initial_row sf p Hn).
  assert (Hall : Forall (fun row => length row = sf_nlm_len sf) (pr_nlm s)).
  { rewrite (ok_nlm _ _ _ _ Hok). apply Forall_insert; [|done].
    apply shape_np_zeros2. }
  assert (Hlen : length (pr_nlm s) = Nt p + 1).
  { rewrite (ok_nlm _ _ _ _ Hok), length_insert. apply length_np_zeros2. }
  destruct (loop_run sf p (pr_dt s) (pr_M_LROT s) (pr_M_CDRX s) (pr_M_REG s) (pr_S s)
              (sf_nlm_len sf)) with (k := Nt p) (j := 1) (nlm := pr_nlm s)
              (d := with_T mode)
    as (nlm & Hloop & Hlen' & Hall' & Hlow & Hrec); [| lia | lia | done |].
  { intros v Hv. unfold next. rewrite length_fmap, length_euler; [done|]. rewrite Hv.
    apply length_step_operator; try done.
    - apply (ok_shape_LROT _ _ _ _ Hok).
    - apply (ok_shape_CDRX _ _ _ _ Hok).
    - apply (ok_shape_REG _ _ _ _ Hok). }
  exists s, nlm. split; [done|]. split; [done|]. split; [|split; [|split]].
  - unfold call, lagrangianparcel. erewrite bind_ok; [reflexivity|exact Hs|].
    erewrite bind_ok; [reflexivity|apply when_run|].
    erewrite bind_ok; [|exact Hloop|reflexivity].
    unfold bar_log. by rewrite app_nil_r.
  - split; [lia|done].
  - rewrite Hlow by lia. rewrite (ok_nlm _ _ _ _ Hok).
    apply list_lookup_insert_eq. rewrite length_np_zeros2. lia.
  - intros t Ht. apply Hrec. lia.
Qed.

(** Every row of a returned history is as the storage type holds it. *)
Lemma call_rows_stored mode p out t v :
  sf_shaped sf -> runnable sf mode p = true -> step_size_defined p = true ->
  res_of (call sf mode p) = Ok out -> out_nlm out !! t = Some v ->
  c64 <$> v = v.
Proof.
  intros Hsf Hrun Hdef Hout Hv.
  destruct (call_run mode p Hsf Hrun Hdef)
    as (s & nlm & _ & _ & Hcall & [Hlen _] & Hrow & Hrec).
  rewrite Hcall in Hout. injection Hout as <-. simpl in Hv.
  destruct t as [|t].
  - rewrite Hrow in Hv. injection Hv as <-. apply c64_initial_row.
  - apply lookup_lt_Some in Hv as Hlt.
    destruct (Hrec (S t)) as (w & _ & Hnext); [lia|].
    rewrite Hnext in Hv. injection Hv as <-. apply c64_next.
Qed.
End Call.

(** ** What a call does to the caller's dict, and what the flags change *)

Section EffectFacts.
Context {C : Type} `{Num C}.
Variable sf : specfab C.
Implicit Types (d mode : gmap string (pyval C)) (p : params C).

Lemma preserves_ret {A} (a : A) : preserves (C:=C) (ret a).
Proof. intros d. reflexivity. Qed.

Lemma preserves_raise {A} e : preserves (C:=C) (raise (A:=A) e).
Proof. intros d. reflexivity. Qed.

Lemma preserves_tell ev : preserves (C:=C) (tell ev).
Proof. intros d. reflexivity. Qed.

Lemma preserves_dict_get k : preserves (C:=C) (dict_get k).
Proof. intros d. unfold dict_get. destruct (d !! k); reflexivity. Qed.

Lemma preserves_when b ev : preserves (C:=C) (when b (tell ev)).
Proof. intros d. destruct b; reflexivity. Qed.

Lemma preserves_bind {A B} (m : M A) (k : A -> M B) :
  preserves (C:=C) m -> (forall a, preserves (k a)) -> preserves (bind m k).
Proof.
  intros Hm Hk d. unfold bind. specialize (Hm d).
  destruct (m d) as [[[a|e] d1] l1]; unfold dict_of in *; simpl in *; subst.
  - specialize (Hk a d). destruct (k a d) as [[r d2] l2]. exact Hk.
  - reflexivity.
Qed.

Lemma preserves_foldM {A B} (f : B -> A -> M B) l :
  (forall b a, preserves (C:=C) (f b a)) -> forall b, preserves (foldM f l b).
Proof.
  intros Hf. induction l as [|a l IH]; intros b; simpl.
  - apply preserves_ret.
  - apply preserves_bind; auto.
Qed.

Ltac preserving :=
  repeat first
    [ apply preserves_ret | apply preserves_raise | apply preserves_tell
    | apply preserves_dict_get | apply preserves_when
    | apply preserves_bind; [|intros]
    | match goal with
      | |- preserves (match ?x with _ => _ end) => destruct x
      end ].

Lemma preserves_deformation p : preserves (deformation sf p).
Proof. unfold deformation, divide_by_steps. preserving. Qed.

Lemma preserves_init_state p : preserves (init_state sf p).
Proof. unfold init_state, set_item, set_row. preserving. Qed.

Lemma preserves_get_row (a : list (list C)) i : preserves (C:=C) (get_row a i).
Proof. unfold get_row. preserving. Qed.

Lemma preserves_regularization p v D : preserves (regularization sf p v D).
Proof. unfold regularization, M_REG_custom. preserving. Qed.

Lemma preserves_cdrx p v : preserves (cdrx sf p v).
Proof. unfold cdrx. preserving. Qed.

Lemma preserves_lattice_rotation p v D W : preserves (lattice_rotation sf p v D W).
Proof. unfold lattice_rotation. preserving. Qed.

Lemma preserves_step p dt' A B R S nlm nt : preserves (step sf p dt' A B R S nlm nt).
Proof. unfold step, get_row, set_row. preserving. Qed.

(** Whatever the outcome, the dict the caller holds after the call is the
    one line 17 left. *)
Lemma dict_of_call mode p : dict_of (call sf mode p) = with_T mode.
Proof.
  unfold call, lagrangianparcel, setup.
  set (rest := fun _ : unit => bind (deformation sf p) _).
  set (loop := fun s : prepared => _).
  unfold bind at 1. unfold bind at 1. rewrite default_T_run.
  assert (Hrest : preserves (rest tt)).
  { unfold rest. apply preserves_bind; [apply preserves_deformation|].
    intros [[dt' F] ugrad]. destruct (sf_ugrad_to_D_and_W sf ugrad) as [D W].
    apply preserves_bind; [apply preserves_tell|]. intros _.
    apply preserves_bind; [apply preserves_init_state|]. intros nlm.
    apply preserves_bind; [apply preserves_get_row|]. intros v.
    apply preserves_bind; [apply preserves_regularization|]. intros MR.
    apply preserves_bind; [apply preserves_cdrx|]. intros MC.
    apply preserves_bind; [apply preserves_lattice_rotation|]. intros ML.
    apply preserves_ret. }
  specialize (Hrest (with_T mode)).
  destruct (rest tt (with_T mode)) as [[[s|e] d1] l1]; unfold dict_of in *;
    simpl in *; subst; [|reflexivity].
  assert (Hloop : preserves (loop s)).
  { unfold loop. apply preserves_bind; [apply preserves_when|]. intros _.
    apply preserves_bind; [|intros; apply preserves_ret].
    apply preserves_foldM. intros. apply preserves_step. }
  specialize (Hloop (with_T mode)).
  destruct (loop s (with_T mode)) as [[r d2] l2]. exact Hloop.
Qed.

(** A second call on the dict that a first call left runs as the first. *)
Lemma call_with_T mode p : call sf (with_T mode) p = call sf mode p.
Proof.
  unfold call, lagrangianparcel, setup.
  apply bind_cong, bind_cong. by rewrite !default_T_run, with_T_idem.
Qed.

Lemma same_result_refl {A} (m : M A) : same_result (C:=C) m m.
Proof. intros d. auto. Qed.

Lemma same_result_when b1 b2 ev : same_result (C:=C) (when b1 (tell ev)) (when b2 (tell ev)).
Proof. intros d. destruct b1, b2; auto. Qed.

Lemma same_result_bind {A B} (m1 m2 : M A) (k1 k2 : A -> M B) :
  same_result (C:=C) m1 m2 -> (forall a, same_result (k1 a) (k2 a)) ->
  same_result (bind m1 k1) (bind m2 k2).
Proof.
  intros Hm Hk d. unfold bind. destruct (Hm d) as [Hr Hd].
  destruct (m1 d) as [[r1 d1] l1], (m2 d) as [[r2 d2] l2].
  unfold res_of, dict_of in *. simpl in *. subst.
  destruct r2 as [a|e]; [|auto].
  destruct (Hk a d2) as [Hr' Hd'].
  destruct (k1 a d2) as [[r3 d3] l3], (k2 a d2) as [[r4 d4] l4]. auto.
Qed.

Lemma same_result_foldM {A B} (f g : B -> A -> M B) l :
  (forall b a, same_result (C:=C) (f b a) (g b a)) ->
  forall b, same_result (foldM f l b) (foldM g l b).
Proof.
  intros Hfg. induction l as [|a l IH]; intros b; simpl.
  - apply same_result_refl.
  - apply same_result_bind; auto.
Qed.

Lemma same_result_flags p v1 b1 v2 b2 :
  same_result (lagrangianparcel sf (with_flags p v1 b1))
              (lagrangianparcel sf (with_flags p v2 b2)).
Proof.
  unfold lagrangianparcel.
  apply same_result_bind; [apply same_result_refl|]. intros s.
  apply same_result_bind; [apply same_result_when|]. intros _.
  apply same_result_bind; [|intros; apply same_result_refl].
  apply same_result_foldM. intros nlm nt. unfold step.
  apply same_result_bind; [apply same_result_refl|]. intros v.
  apply same_result_bind; [apply same_result_refl|]. intros _.
  apply same_result_bind; [apply same_result_refl|]. intros nlm'.
  apply same_result_bind; [apply same_result_refl|]. intros _.
  apply same_result_bind; [apply same_result_when|]. intros _.
  apply same_result_refl.
Qed.
End EffectFacts.

(** ** Exact arithmetic with the zero matrix *)

Section ZeroFacts.
Context {C : Type} `{ZeroLaws C}.
Variable sf : specfab C.

Lemma vadd_zeros (v : list C) n : length v = n -> vadd v (np_zeros n) = v.
Proof.
  revert n. induction v as [|x v IH]; intros [|n] Hn; try discriminate; [done|].
  simpl in Hn. injection Hn as Hn. unfold vadd, np_zeros in *. simpl.
  fold (@zero C _). unfold zero at 1. rewrite cadd_0_r. f_equal. by apply IH.
Qed.






End ZeroFacts.

(** ** The claims *)

Section Claims.
Context {C : Type} `{Num C}.
Variable sf : specfab C.
Implicit Types (d mode : gmap string (pyval C)) (p : params C).

(** C1. With a library that keeps its contract on shapes and arguments the
  source accepts (the step size supplied, or at least one step to divide
  the time by), the call returns, and for every time index [t] in [1..Nt]
  the stored row is [nlm[t] = nlm[t-1] + dt * (M . nlm[t-1])], as an entry
  of the complex64 history: the right-hand side converted to the storage
  type.  [M] is the sum of the three steady operators that the source built
  before the loop (lattice rotation, grain-boundary recrystallization,
  regularization) plus, when [Gamma0] is given, [Gamma0] times the
  library's migration operator at [nlm[t-1]] and the stress proxy [S = D],
  and plus the zero matrix when it is not: the term is formed anew from the
  previous row at every step. *)
Theorem euler_update_at_every_step mode p :
sf_shaped sf -> runnable sf mode p = true -> step_size_defined p = true ->
exists s out,
  res_of (setup sf p mode) = Ok s
  /\ prepared_ok sf (with_T mode) p s
  /\ res_of (call sf mode p) = Ok out
  /\ forall t, 1 <= t <= Nt p ->
       exists nlm_prev,
         out_nlm out !! (t - 1) = Some nlm_prev
         /\ out_nlm out !! t
            = Some (c64 <$>
                    vadd nlm_prev
                      (vscale (pr_dt s)
                         (matmul
                            (madd (madd (madd (pr_M_LROT s) (pr_M_CDRX s)) (pr_M_REG s))
                               (match Gamma0 p with
                                | Some g => mscale g (sf_M_DDRX sf nlm_prev (strain_rate sf (with_T mode)))
                                | None => np_zeros2 (sf_nlm_len sf) (sf_nlm_len sf)
                                end))
                            nlm_prev))).
Proof.
intros Hsf Hrun Hdef.
destruct (call_run sf mode p Hsf Hrun Hdef)
  as (s & nlm & Hs & Hok & Hcall & _ & _ & Hrec).
exists s, {| out_nlm := nlm; out_F := pr_F s; out_time := pr_time s;
            out_ugrad := pr_ugrad s |}.
split; [by rewrite Hs|]. split; [done|]. split; [by rewrite Hcall|].
intros t Ht. destruct (Hrec t Ht) as (v & Hv & Hnext).
exists v. split; [exact Hv|]. simpl. rewrite Hnext.
unfold next, euler, step_operator, ddrx_term, M_zero.
by rewrite (ok_S _ _ _ _ Hok).
Qed.


(** C4, as amended.  For a library with at least one coefficient, the
  state initializer allocates a history of [Nt+1] rows of [nlm_len]
  coefficients, an array of complex64.  Without an initial vector, row 0
  has as its zeroth coefficient [1/sqrt(4 pi)] as complex64 stores it, and
  zeros elsewhere.  A supplied vector of length [nlm_len] is stored into
  row 0 converted to complex64, whatever its norm; it is there as it was
  given when its coefficients are complex64 values already.  A supplied
  vector of length one is repeated over row 0, converted likewise; a
  supplied vector of any other length makes the assignment raise numpy's
  value error, which names the two lengths. *)
Theorem state_initializer_rows p d :
0 < sf_nlm_len sf ->
match nlm0 p with
| None =>
    exists nlm,
      init_state sf p d = (Ok nlm, d, [EvAlloc BufNlm (Nt p + 1)])
      /\ shape (Nt p + 1) (sf_nlm_len sf) nlm
      /\ nlm !! 0 = Some (c64 (cdiv (of_nat 1) (csqrt (cmul (of_nat 4) cpi)))
                            :: replicate (sf_nlm_len sf - 1) (of_nat 0))
| Some v =>
    if decide (length v = sf_nlm_len sf) then
      exists nlm,
        init_state sf p d = (Ok nlm, d, [EvAlloc BufNlm (Nt p + 1)])
        /\ shape (Nt p + 1) (sf_nlm_len sf) nlm
        /\ nlm !! 0 = Some (c64 <$> v)
        /\ (Forall (fun x => c64 x = x) v -> nlm !! 0 = Some v)
    else
      match v with
      | [x] =>
          exists nlm,
            init_state sf p d = (Ok nlm, d, [EvAlloc BufNlm (Nt p + 1)])
            /\ shape (Nt p + 1) (sf_nlm_len sf) nlm
            /\ nlm !! 0 = Some (replicate (sf_nlm_len sf) (c64 x))
      | _ =>
          init_state sf p d
          = (Raise (ValueError
                      ("could not broadcast input array from shape ("
                       +:+ pretty (length v) +:+ ",) into shape ("
                       +:+ pretty (sf_nlm_len sf) +:+ ",)")),
             d, [EvAlloc BufNlm (Nt p + 1)])
      end
end.
Proof.
intros Hn.
assert (Hgood : nlm0_ok sf p = true ->
  exists nlm,
    init_state sf p d = (Ok nlm, d, [EvAlloc BufNlm (Nt p + 1)])
    /\ shape (Nt p + 1) (sf_nlm_len sf) nlm
    /\ nlm !! 0 = Some (initial_row sf p)).
{ intros Hok. eexists. split; [by apply init_state_run|]. split.
  - split; [rewrite length_insert; apply length_np_zeros2|].
    apply Forall_insert; [apply shape_np_zeros2|by apply length_initial_row].
  - apply list_lookup_insert_eq. rewrite length_np_zeros2. lia. }
unfold nlm0_ok, initial_row in Hgood.
destruct (nlm0 p) as [v|] eqn:Hv.
- destruct (decide (length v = sf_nlm_len sf)) as [Hlen|Hlen].
  + destruct Hgood as (nlm & Hrun & Hshape & Hrow).
    { apply bool_decide_eq_true_2. auto. }
    exists nlm. split; [done|]. split; [done|]. split; [done|].
    intros Hfix. rewrite Hrow. f_equal.
    clear -Hfix. induction Hfix as [|x v Hx _ IH]; [done|].
    rewrite fmap_cons. by rewrite Hx, IH.
  + destruct v as [|x [|y v]].
    * unfold init_state, bind, tell, set_row, broadcast_message. rewrite Hv.
      rewrite lookup_np_zeros2 by lia. rewrite length_np_zeros.
      by destruct (decide _).
    * apply Hgood. apply bool_decide_eq_true_2. auto.
    * unfold init_state, bind, tell, set_row, broadcast_message. rewrite Hv.
      rewrite lookup_np_zeros2 by lia. rewrite length_np_zeros.
      by destruct (decide _).
- destruct Hgood as (nlm & Hrun & Hshape & Hrow).
  { by apply bool_decide_eq_true_2. }
  exists nlm. split; [done|]. split; [done|]. rewrite Hrow. f_equal.
  unfold np_zeros, isotropic_coefficient, zero.
  destruct (sf_nlm_len sf) as [|n]; [lia|]. simpl. by rewrite Nat.sub_0_r.
Qed.

(** C6. A mode whose type is none of simpleshear/ss and pureshear/ps makes
  the call raise: the exception for an unimplemented rigid rotation when
  it is rigidrotation/rr, whose message names the mode rigidrotation, and
  otherwise the value error whose message quotes the type as given.
  Either is raised with an empty log: no deformation-gradient series, time
  array or coefficient history has been created and no row has been
  stored. *)
Theorem unsupported_mode_rejected mode p ty :
mode !! "type" = Some ty -> is_ss ty = false -> is_ps ty = false ->
call sf mode p
= (Raise (if is_rr ty
          then PyException ("type=" +:+ dq +:+ "rigidrotation" +:+ dq
                            +:+ " not yet supported")
          else ValueError ("Mode of deformation type=" +:+ dq +:+ py_str ty
                           +:+ dq +:+ " not supported")),
   with_T mode, []).
Proof.
intros Hty Hss Hps.
assert (Hty' : with_T mode !! "type" = Some ty) by (by rewrite lookup_with_T_ne).
unfold call, lagrangianparcel, setup, bind. rewrite default_T_run.
unfold deformation, bind. rewrite (dict_get_run _ _ _ Hty').
fold (is_ss ty) (is_ps ty) (is_rr ty). rewrite Hss, Hps.
destruct (is_rr ty); reflexivity.
Qed.

(** C8, as amended.  The only effect of a call on the caller's mode
  descriptor is the one of line 17: a descriptor that holds the time scale
  [T] is left as it was, and a descriptor without [T] leaves the call with
  the entry [T = 1] added; this holds for every outcome of the call.  The
  derivation of the trajectory itself (lines 19-36) leaves the descriptor
  as it finds it. *)
Theorem mode_descriptor_after_call mode p :
dict_of (call sf mode p)
= match mode !! "T" with
  | Some _ => mode
  | None => <["T" := PNum (of_nat 1)]> mode
  end
/\ forall d, dict_of (deformation sf p d) = d.
Proof. split; [apply dict_of_call|apply preserves_deformation]. Qed.

(** C10. Two calls on the same arguments return the same: the flags
  [verbose] and [apply_bounds] change neither what is returned (the
  coefficient history with the other arrays, or the exception) nor the
  dict that is left, and a call on the dict that a first call has left
  returns what the first call returned. *)
Theorem flags_do_not_change_result mode p v1 b1 v2 b2 :
res_of (call sf mode (with_flags p v1 b1)) = res_of (call sf mode (with_flags p v2 b2))
/\ dict_of (call sf mode (with_flags p v1 b1))
   = dict_of (call sf mode (with_flags p v2 b2))
/\ res_of (call sf (dict_of (call sf mode p)) p) = res_of (call sf mode p).
Proof.
split; [|split].
- apply (same_result_flags sf p v1 b1 v2 b2 mode).
- apply (same_result_flags sf p v1 b1 v2 b2 mode).
- by rewrite dict_of_call, call_with_T.
Qed.
End Claims.

Section ClaimsOnRuns.
Context {C : Type} `{Num C}.
Variable sf : specfab C.
Implicit Types (d mode : gmap string (pyval C)) (p : params C).

Lemma steady_calls_of_loop p j k :
  Forall (fun ev => is_steady_call ev = false) (loop_log p j k).
Proof.
  unfold loop_log. revert j. induction k as [|k IH]; intros j; simpl; [constructor|].
  apply Forall_app. split; [|apply IH].
  unfold step_log. destruct (bool_decide _), (verbose p); repeat constructor.
Qed.

Lemma stores_of_setup p : Forall (fun ev => forall nt, ev <> EvStore nt) (setup_log p ++ bar_log p).
Proof.
  unfold setup_log, reg_log, cdrx_log, lrot_log, bar_log.
  destruct (regexpo p), (nu p), (Lambda p), (iota p), (verbose p); simpl;
    repeat constructor; discriminate.
Qed.

Lemma steady_calls_of_setup p :
  List.filter is_steady_call (setup_log p ++ bar_log p)
  = reg_log p ++ cdrx_log p ++ lrot_log p.
Proof.
  unfold setup_log, reg_log, cdrx_log, lrot_log, bar_log.
  destruct (regexpo p), (nu p), (Lambda p), (iota p), (verbose p); reflexivity.
Qed.

Lemma steady_calls_once p : NoDup (reg_log p ++ cdrx_log p ++ lrot_log p).
Proof.
  unfold reg_log, cdrx_log, lrot_log.
  destruct (regexpo p), (nu p), (Lambda p), (iota p); simpl;
    repeat (apply NoDup_cons; split;
            [ intros Hin;
              repeat (apply elem_of_cons in Hin as [Hin|Hin]; [discriminate|]);
              by apply elem_of_nil in Hin |]);
    apply NoDup_nil_2.
Qed.

(** C7. When [dt] is not supplied and [Nt] is not zero, the step size is
  the library's conversion of the target strain to a time, for the mode's
  time scale [T] (1 when the descriptor has none), divided by [Nt]; in
  exact arithmetic, where dividing by a non-zero count and multiplying by
  it cancel, [dt * Nt] is that time.  The returned array of time stamps has
  [Nt+1] entries, and [time[k] = dt * k] for every [k] in [0..Nt]. *)
Theorem derived_step_size_and_time_stamps mode p :
sf_shaped sf -> runnable sf mode p = true ->
dt p = None -> Nt p <> 0 ->
(forall (x : C) n, n <> 0 -> cmul (cdiv x (of_nat n)) (of_nat n) = x) ->
exists out,
  res_of (call sf mode p) = Ok out
  /\ cmul (cdiv (strain_to_time sf (with_T mode) p) (of_nat (Nt p))) (of_nat (Nt p))
     = strain_to_time sf (with_T mode) p
  /\ length (out_time out) = Nt p + 1
  /\ forall k, k <= Nt p ->
       out_time out !! k
       = Some (cmul (cdiv (strain_to_time sf (with_T mode) p) (of_nat (Nt p))) (of_nat k)).
Proof.
intros Hsf Hrun Hdt HNt Hdiv.
destruct (call_run sf mode p Hsf Hrun (step_size_defined_steps p HNt))
  as (s & nlm & Hs & Hok & Hcall & _).
eexists. split; [by rewrite Hcall|]. simpl. split; [by apply Hdiv|].
rewrite (ok_time _ _ _ _ Hok). unfold time_stamps, step_size. rewrite Hdt. split.
- by rewrite length_fmap, length_seq.
- intros k Hk. rewrite list_lookup_fmap, lookup_seq_lt by lia. reflexivity.
Qed.

(** C9, as amended.  The constant part of the operator is built once,
  before the loop: each steady constructor of the library is called at most
  once in a run, before the first row is stored, and not at all in the
  loop.  The state that the constructors are given is row 0 of the history,
  the actual initial state of the run, which has [nlm_len] coefficients
  whatever initial vector is supplied; on the default path the
  regularization, and the recrystallization and rotation terms, are what
  the library returns for that state, and the custom regularization is
  built without it.  The source does nothing to make the operators
  independent of that state: two runs that differ only in the supplied
  initial vector enter the loop with the same three operators when the
  library's constructors read only the shape of the state they are
  given. *)
Theorem steady_operators_built_once_from_initial_row mode p v' :
sf_shaped sf ->
accepted sf mode p = true -> accepted sf mode (with_nlm0 p v') = true ->
exists s s',
  res_of (setup sf p mode) = Ok s
  /\ res_of (setup sf (with_nlm0 p v') mode) = Ok s'
  /\ (regexpo p = None ->
        pr_M_REG s
        = match nu p with
          | Some n => mscale n (sf_M_REG sf (initial_row sf p)
                                  (strain_rate sf (with_T mode)))
          | None => np_zeros2 (sf_nlm_len sf) (sf_nlm_len sf)
          end)
  /\ (forall e n, regexpo p = Some e -> nu p = Some n ->
        pr_M_REG s = custom_operator sf n e (strain_rate sf (with_T mode)))
  /\ pr_M_CDRX s
     = match Lambda p with
       | Some l => mscale l (sf_M_CDRX sf (initial_row sf p))
       | None => np_zeros2 (sf_nlm_len sf) (sf_nlm_len sf)
       end
  /\ pr_M_LROT s
     = match iota p with
       | Some i => sf_M_LROT sf (initial_row sf p) (strain_rate sf (with_T mode))
                     (spin sf (with_T mode)) i (zeta p)
       | None => np_zeros2 (sf_nlm_len sf) (sf_nlm_len sf)
       end
  /\ length (initial_row sf p) = sf_nlm_len sf
  /\ length (initial_row sf (with_nlm0 p v')) = sf_nlm_len sf
  /\ (shape_only sf ->
        pr_M_REG s = pr_M_REG s' /\ pr_M_CDRX s = pr_M_CDRX s'
        /\ pr_M_LROT s = pr_M_LROT s')
  /\ (exists pre,
        log_of (call sf mode p) = pre ++ loop_log p 1 (Nt p)
        /\ NoDup (List.filter is_steady_call pre)
        /\ Forall (fun ev => forall nt, ev <> EvStore nt) pre
        /\ Forall (fun ev => is_steady_call ev = false) (loop_log p 1 (Nt p))).
Proof.
intros Hsf Hacc Hacc'.
unfold accepted in Hacc, Hacc'.
apply andb_true_iff in Hacc as [Hrun Hdef].
apply andb_true_iff in Hacc' as [Hrun' Hdef'].
destruct (setup_run sf mode p Hsf Hrun Hdef) as (s & Hs & Hok).
destruct (setup_run sf mode _ Hsf Hrun' Hdef') as (s' & Hs' & Hok').
exists s, s'. split; [by rewrite Hs|]. split; [by rewrite Hs'|].
pose proof (ok_REG _ _ _ _ Hok) as E1. pose proof (ok_REG _ _ _ _ Hok') as E1'.
pose proof (ok_CDRX _ _ _ _ Hok) as E2. pose proof (ok_CDRX _ _ _ _ Hok') as E2'.
pose proof (ok_LROT _ _ _ _ Hok) as E3. pose proof (ok_LROT _ _ _ _ Hok') as E3'.
pose proof Hrun as Hparts. apply runnable_inv in Hparts as (_ & Hn & _).
pose proof Hrun' as Hparts'. apply runnable_inv in Hparts' as (_ & Hn' & _).
pose proof (length_initial_row sf p Hn) as Hlen.
pose proof (length_initial_row sf _ Hn') as Hlen'.
split; [|split; [|split; [|split; [|split; [|split; [|split]]]]]].
- intros He. unfold regularization in E1. rewrite He in E1.
  destruct (nu p); by injection E1 as <-.
- intros e n He Hnu. unfold regularization in E1.
  rewrite He, Hnu, M_REG_custom_run in E1. by injection E1 as <-.
- unfold cdrx in E2. destruct (Lambda p); by injection E2 as <-.
- unfold lattice_rotation in E3. destruct (iota p); by injection E3 as <-.
- exact Hlen.
- exact Hlen'.
- intros Hshape.
  destruct (Hshape (initial_row sf p) (initial_row sf (with_nlm0 p v')))
    as (HR & HC & HL); [by rewrite Hlen, Hlen'|].
  change (regularization sf (with_nlm0 p v')) with (regularization sf p) in E1'.
  change (cdrx sf (with_nlm0 p v')) with (cdrx sf p) in E2'.
  change (lattice_rotation sf (with_nlm0 p v')) with (lattice_rotation sf p) in E3'.
  unfold regularization in E1, E1'. unfold cdrx in E2, E2'.
  unfold lattice_rotation in E3, E3'.
  destruct (regexpo p), (nu p), (Lambda p), (iota p);
    rewrite ?HR, ?HC, ?HL in *;
    rewrite E1' in E1; rewrite E2' in E2; rewrite E3' in E3;
    injection E1 as E1; injection E2 as E2; injection E3 as E3; auto.
- destruct (call_run sf mode p Hsf Hrun Hdef) as (s0 & nlm & _ & _ & Hcall & _).
  exists (setup_log p ++ bar_log p). rewrite Hcall.
  split; [by rewrite <- app_assoc|]. split; [|split].
  + rewrite steady_calls_of_setup. apply steady_calls_once.
  + apply stores_of_setup.
  + apply steady_calls_of_loop.
Qed.
End ClaimsOnRuns.

Section ClaimsOnZero.
Context {C : Type} `{ZeroLaws C}.
Variable sf : specfab C.
Implicit Types (d mode : gmap string (pyval C)) (p : params C).

End ClaimsOnZero.

(** ** The exact instance keeps the contracts *)

Lemma shape_diag n f : shape n n (Exact.diag n f).
Proof.
  unfold Exact.diag. split.
  - by rewrite length_fmap, length_seq.
  - apply Forall_fmap, Forall_forall. intros i _. simpl.
    by rewrite length_fmap, length_seq.
Qed.

Lemma exact_sf_shaped : sf_shaped Exact.sf.
Proof.
  split; simpl.
  - reflexivity.
  - intros v D ->. apply shape_diag.
  - intros v ->. apply shape_diag.
  - intros v D W i z ->. apply shape_diag.
  - intros v S ->. apply shape_diag.
  - intros v ->. apply shape_diag.
Qed.

Lemma exact_reading_state_shaped : sf_shaped Exact.sf_reading_state.
Proof.
  split; simpl.
  - reflexivity.
  - intros v D ->. apply shape_diag.
  - intros v ->. apply shape_diag.
  - intros v D W i z ->. apply shape_diag.
  - intros v S ->. apply shape_diag.
  - intros v ->. apply shape_diag.
Qed.



Lemma exact_shape_only : shape_only Exact.sf.
Proof. intros v v' Hlen. simpl. by rewrite Hlen. Qed.

#[global] Instance exact_zero_laws : ZeroLaws Qc.
Proof.
  split; intros x.
  - apply Qcplus_0_r.
  - apply Qcmult_0_l.
  - apply Qcmult_0_r.
Qed.

Lemma qnat_nonzero n : n <> 0 -> Exact.qnat n <> Exact.qnat 0.
Proof.
  intros Hn Heq. apply Q2Qc_eq_iff in Heq. unfold Qeq in Heq. simpl in Heq. lia.
Qed.

Lemma exact_div_mul (x : Qc) n :
  n <> 0 -> cmul (cdiv x (of_nat n)) (of_nat n) = x.
Proof.
  intros Hn. simpl. rewrite Qcmult_comm. apply Qcmult_div_r.
  by apply qnat_nonzero.
Qed.

(** ** The claims on the exact instance *)

Lemma euler_update_at_every_step_witness :
  sf_shaped Exact.sf
  /\ runnable Exact.sf Exact.ss_mode Exact.busy = true
  /\ step_size_defined Exact.busy = true
  /\ exists s out,
       res_of (setup Exact.sf Exact.busy Exact.ss_mode) = Ok s
       /\ res_of (call Exact.sf Exact.ss_mode Exact.busy) = Ok out
       /\ exists nlm_prev,
            out_nlm out !! 4 = Some nlm_prev
            /\ out_nlm out !! 5
               = Some (c64 <$>
                       vadd nlm_prev
                         (vscale (pr_dt s)
                            (matmul
                               (madd (madd (madd (pr_M_LROT s) (pr_M_CDRX s)) (pr_M_REG s))
                                  (mscale (Q2Qc (1 # 2))
                                     (sf_M_DDRX Exact.sf nlm_prev
                                        (strain_rate Exact.sf (with_T Exact.ss_mode)))))
                               nlm_prev))).
Proof.
  split; [exact exact_sf_shaped|]. split; [reflexivity|]. split; [reflexivity|].
  destruct (euler_update_at_every_step Exact.sf Exact.ss_mode Exact.busy
              exact_sf_shaped eq_refl eq_refl) as (s & out & Hs & _ & Hout & Hrec).
  exists s, out. split; [exact Hs|]. split; [exact Hout|].
  apply (Hrec 5). simpl. lia.
Defined.



Lemma state_initializer_rows_witness :
  0 < sf_nlm_len Exact.sf
  /\ (exists nlm,
        init_state Exact.sf Exact.quiet Exact.ss_mode
        = (Ok nlm, Exact.ss_mode, [EvAlloc BufNlm 6])
        /\ shape 6 6 nlm
        /\ nlm !! 0 = Some (c64 (cdiv (of_nat 1) (csqrt (cmul (of_nat 4) cpi)))
                              :: replicate 5 (of_nat 0)))
  /\ (exists nlm,
        init_state Exact.sf (with_nlm0 Exact.quiet (Some Exact.six)) Exact.ss_mode
        = (Ok nlm, Exact.ss_mode, [EvAlloc BufNlm 6])
        /\ shape 6 6 nlm
        /\ nlm !! 0 = Some (c64 <$> Exact.six))
  /\ (exists nlm,
        init_state Exact.sf Exact.single_start Exact.ss_mode
        = (Ok nlm, Exact.ss_mode, [EvAlloc BufNlm 6])
        /\ shape 6 6 nlm
        /\ nlm !! 0 = Some (replicate 6 (c64 (Exact.qnat 7))))
  /\ init_state Exact.sf Exact.short_start Exact.ss_mode
     = (Raise (ValueError
                 "could not broadcast input array from shape (2,) into shape (6,)"),
        Exact.ss_mode, [EvAlloc BufNlm 6]).
Proof.
  assert (Hpos : 0 < sf_nlm_len Exact.sf) by (simpl; lia).
  split; [exact Hpos|]. split; [|split; [|split]].
  - exact (state_initializer_rows Exact.sf Exact.quiet Exact.ss_mode Hpos).
  - destruct (state_initializer_rows Exact.sf (with_nlm0 Exact.quiet (Some Exact.six))
                Exact.ss_mode Hpos) as (nlm & Hrun & Hshape & Hrow & _).
    exists nlm. split; [exact Hrun|]. split; [exact Hshape|exact Hrow].
  - exact (state_initializer_rows Exact.sf Exact.single_start Exact.ss_mode Hpos).
  - exact (state_initializer_rows Exact.sf Exact.short_start Exact.ss_mode Hpos).
Defined.

(** C4, counterexample.  A supplied vector of two coefficients, where the
    library has six, is not copied into row 0: the call raises and returns no
    history. *)
Lemma supplied_vector_of_other_length_refused :
  res_of (call Exact.sf Exact.ss_mode Exact.short_start)
  = Raise (ValueError
             "could not broadcast input array from shape (2,) into shape (6,)")
  /\ ~ (exists out,
          res_of (call Exact.sf Exact.ss_mode Exact.short_start) = Ok out
          /\ out_nlm out !! 0 = Some [Exact.qnat 1; Exact.qnat 2]).
Proof.
  assert (Hraise : res_of (call Exact.sf Exact.ss_mode Exact.short_start)
                   = Raise (ValueError
                              "could not broadcast input array from shape (2,) into shape (6,)"))
    by (vm_compute; reflexivity).
  split; [exact Hraise|]. intros (out & Hout & _). rewrite Hraise in Hout. discriminate.
Qed.

(** C5, at the failing input.  With the custom exponent set and [nu]
    omitted the call raises the type error of [None * float], where the
    claim has the omitted [nu] contribute the zero matrix; the same call
    without the exponent returns. *)
Lemma omitted_nu_with_custom_exponent_raises :
  res_of (call Exact.sf Exact.ss_mode Exact.custom_without_nu)
  = Raise (TypeError "unsupported operand type(s) for *: 'NoneType' and 'float'")
  /\ exists out, res_of (call Exact.sf Exact.ss_mode Exact.quiet) = Ok out.
Proof.
  split; [vm_compute; reflexivity|]. eexists. vm_compute. reflexivity.
Qed.

Lemma unsupported_mode_rejected_witness :
  Exact.cylinder_mode !! "type" = Some (PStr "cylinder")
  /\ is_ss (C:=Qc) (PStr "cylinder") = false
  /\ is_ps (C:=Qc) (PStr "cylinder") = false
  /\ call Exact.sf Exact.cylinder_mode Exact.quiet
     = (Raise (ValueError ("Mode of deformation type=" +:+ dq +:+ "cylinder" +:+ dq
                           +:+ " not supported")),
        with_T Exact.cylinder_mode, []).
Proof.
  assert (Hty : Exact.cylinder_mode !! "type" = Some (PStr (C:=Qc) "cylinder"))
    by reflexivity.
  split; [exact Hty|]. split; [reflexivity|]. split; [reflexivity|].
  exact (unsupported_mode_rejected Exact.sf Exact.cylinder_mode Exact.quiet
           (PStr "cylinder") Hty eq_refl eq_refl).
Defined.

Lemma derived_step_size_and_time_stamps_witness :
  sf_shaped Exact.sf
  /\ runnable Exact.sf Exact.ss_mode Exact.quiet = true
  /\ dt Exact.quiet = None
  /\ Nt Exact.quiet <> 0
  /\ exists out,
       res_of (call Exact.sf Exact.ss_mode Exact.quiet) = Ok out
       /\ length (out_time out) = 6
       /\ out_time out !! 5
          = Some (cmul (cdiv (strain_to_time Exact.sf (with_T Exact.ss_mode) Exact.quiet)
                          (of_nat 5)) (of_nat 5)).
Proof.
  assert (HNt : Nt Exact.quiet <> 0) by (simpl; lia).
  split; [exact exact_sf_shaped|]. split; [reflexivity|]. split; [reflexivity|].
  split; [exact HNt|].
  destruct (derived_step_size_and_time_stamps Exact.sf Exact.ss_mode Exact.quiet
              exact_sf_shaped eq_refl eq_refl HNt exact_div_mul)
    as (out & Hout & _ & Hlen & Htime).
  exists out. split; [exact Hout|]. split; [exact Hlen|]. apply (Htime 5). simpl. lia.
Defined.

(** C8, counterexample.  A call on a descriptor without [T] leaves the
    caller with another descriptor than it passed: the entry [T] has been
    added. *)
Lemma mode_descriptor_is_modified :
  dict_of (call Exact.sf Exact.ss_mode_no_T Exact.quiet) <> Exact.ss_mode_no_T
  /\ Exact.ss_mode_no_T !! "T" = None
  /\ dict_of (call Exact.sf Exact.ss_mode_no_T Exact.quiet) !! "T"
     = Some (PNum (Exact.qnat 1)).
Proof.
  assert (HT : dict_of (call Exact.sf Exact.ss_mode_no_T Exact.quiet) !! "T"
               = Some (PNum (Exact.qnat 1))).
  { rewrite dict_of_call. reflexivity. }
  split; [|split; [reflexivity|exact HT]].
  intros Heq. rewrite Heq in HT. discriminate.
Qed.

Lemma steady_operators_built_once_from_initial_row_witness :
  sf_shaped Exact.sf
  /\ accepted Exact.sf Exact.ss_mode Exact.busy = true
  /\ accepted Exact.sf Exact.ss_mode (with_nlm0 Exact.busy (Some Exact.six)) = true
  /\ exists s,
       res_of (setup Exact.sf Exact.busy Exact.ss_mode) = Ok s
       /\ pr_M_CDRX s
          = mscale (Q2Qc (1 # 10))
              (sf_M_CDRX Exact.sf (initial_row Exact.sf Exact.busy))
       /\ pr_M_LROT s
          = sf_M_LROT Exact.sf (initial_row Exact.sf Exact.busy)
              (strain_rate Exact.sf (with_T Exact.ss_mode))
              (spin Exact.sf (with_T Exact.ss_mode)) 1%Qc 0%Qc
       /\ length (initial_row Exact.sf Exact.busy) = 6
       /\ length (initial_row Exact.sf (with_nlm0 Exact.busy (Some Exact.six))) = 6.
Proof.
  split; [exact exact_sf_shaped|]. split; [reflexivity|]. split; [reflexivity|].
  destruct (steady_operators_built_once_from_initial_row Exact.sf Exact.ss_mode
              Exact.busy (Some Exact.six) exact_sf_shaped eq_refl eq_refl)
    as (s & s' & Hs & _ & _ & _ & HC & HL & Hlen & Hlen' & _).
  exists s. split; [exact Hs|]. split; [exact HC|]. split; [exact HL|].
  split; [exact Hlen|exact Hlen'].
Defined.

(** C9, counterexample.  A library that keeps the contract on shapes and
    whose recrystallization constructor reads the state it is given: two
    runs that differ only in the supplied initial vector enter the loop with
    different recrystallization operators, since the state that the source
    hands to the constructor is the initial row of each run. *)
Lemma steady_operators_follow_the_initial_row :
  sf_shaped Exact.sf_reading_state
  /\ accepted Exact.sf_reading_state Exact.ss_mode
       (with_nlm0 Exact.busy (Some Exact.six)) = true
  /\ accepted Exact.sf_reading_state Exact.ss_mode
       (with_nlm0 Exact.busy (Some Exact.six')) = true
  /\ exists s s',
       res_of (setup Exact.sf_reading_state (with_nlm0 Exact.busy (Some Exact.six))
                 Exact.ss_mode) = Ok s
       /\ res_of (setup Exact.sf_reading_state (with_nlm0 Exact.busy (Some Exact.six'))
                    Exact.ss_mode) = Ok s'
       /\ pr_M_CDRX s <> pr_M_CDRX s'.
Proof.
  split; [exact exact_reading_state_shaped|]. split; [reflexivity|].
  split; [reflexivity|].
  eexists. eexists. split; [vm_compute; reflexivity|].
  split; [vm_compute; reflexivity|]. vm_compute. discriminate.
Qed.

(** ** Calls that are refused *)

Section Refusals.
Context {C : Type} `{Num C}.
Variable sf : specfab C.
Implicit Types (d mode : gmap string (pyval C)) (p : params C).

Lemma accepted_inv mode p :
  accepted sf mode p = true ->
  runnable sf mode p = true /\ step_size_defined p = true.
Proof. unfold accepted. intros Ha. by apply andb_true_iff in Ha. Qed.

Lemma bind_default_T {B} (k : unit -> M (C:=C) B) d :
  bind default_T k d = k tt (with_T d).
Proof.
  unfold bind. rewrite default_T_run.
  by destruct (k tt (with_T d)) as [[r d2] l2].
Qed.

Lemma deformation_without_type p d :
  d !! "type" = None ->
  deformation sf p d = (Raise (KeyError "type"), d, []).
Proof. intros Hty. unfold deformation, bind, dict_get. by rewrite Hty. Qed.

Lemma deformation_without_geometry p d ty k :
  d !! "type" = Some ty -> is_Some (d !! "T") -> step_size_defined p = true ->
  missing_geometry d ty = Some k ->
  deformation sf p d = (Raise (KeyError k), d, []).
Proof.
  intros Hty [T HT] Hdef Hk.
  assert (Hdiv : forall x : C, dt p = None ->
            divide_by_steps x (Nt p) d = (Ok (cdiv x (of_nat (Nt p))), d, [])).
  { intros x Hdt. apply divide_by_steps_run. unfold step_size_defined in Hdef.
    rewrite Hdt in Hdef. by apply bool_decide_eq_true_1 in Hdef. }
  unfold deformation. unfold bind at 1.
  rewrite (dict_get_run _ _ _ Hty). fold (is_ss ty) (is_ps ty) (is_rr ty).
  unfold missing_geometry in Hk. destruct (is_ss ty).
  - destruct (d !! "plane") as [v|] eqn:Hplane; [discriminate|].
    injection Hk as <-. unfold bind, dict_get.
    destruct (dt p); simpl;
      repeat (progress (rewrite ?HT, ?Hplane, ?Hdiv by done; simpl)); done.
  - destruct (is_ps ty); [|discriminate].
    destruct (d !! "axis") as [a|] eqn:Haxis.
    + destruct (d !! "r") as [r|] eqn:Hr; [discriminate|].
      injection Hk as <-. unfold bind, dict_get.
      destruct (dt p); simpl;
        repeat (progress (rewrite ?HT, ?Haxis, ?Hr, ?Hdiv by done; simpl)); done.
    + injection Hk as <-. unfold bind, dict_get.
      destruct (dt p); simpl;
        repeat (progress (rewrite ?HT, ?Haxis, ?Hdiv by done; simpl)); done.
Qed.

(** Without a supplied step size and without a step, a supported mode
    makes line 21 or 27 divide by zero. *)
Lemma deformation_divides_by_zero p d ty :
  d !! "type" = Some ty -> is_ss ty || is_ps ty = true -> is_Some (d !! "T") ->
  step_size_defined p = false ->
  deformation sf p d = (Raise ZeroDivisionError, d, []).
Proof.
  intros Hty Hsup [T HT] Hdef. unfold step_size_defined in Hdef.
  destruct (dt p) as [x|] eqn:Hdt; [discriminate|].
  apply bool_decide_eq_false_1 in Hdef.
  assert (HNt : Nt p = 0) by (destruct (Nt p); [done|by destruct Hdef]).
  unfold deformation. unfold bind at 1.
  rewrite (dict_get_run _ _ _ Hty). fold (is_ss ty) (is_ps ty) (is_rr ty).
  rewrite Hdt, HNt.
  destruct (is_ss ty); [|destruct (is_ps ty); [|discriminate]];
    unfold bind, dict_get; rewrite HT; reflexivity.
Qed.

Lemma deformation_of_other_type p d ty :
  d !! "type" = Some ty -> is_ss ty = false -> is_ps ty = false ->
  exists e, deformation sf p d = (Raise e, d, []).
Proof.
  intros Hty Hss Hps. unfold deformation. unfold bind at 1.
  rewrite (dict_get_run _ _ _ Hty). fold (is_ss ty) (is_ps ty) (is_rr ty).
  rewrite Hss, Hps. destruct (is_rr ty); eexists; reflexivity.
Qed.

Lemma setup_divides_by_zero mode p :
  mode_ok mode = true -> step_size_defined p = false ->
  setup sf p mode = (Raise ZeroDivisionError, with_T mode, []).
Proof.
  intros Hm Hdef. unfold mode_ok in Hm.
  destruct (mode !! "type") as [ty|] eqn:Hty; [|discriminate].
  unfold setup. rewrite bind_default_T. apply bind_raise.
  apply (deformation_divides_by_zero p (with_T mode) ty).
  - by rewrite lookup_with_T_ne.
  - destruct (is_ss ty); [done|]. by destruct (is_ps ty).
  - apply lookup_with_T.
  - done.
Qed.

Lemma deformation_refuses p d :
  is_Some (d !! "T") -> step_size_defined p = true -> mode_ok d = false ->
  exists e, deformation sf p d = (Raise e, d, []).
Proof.
  intros HT Hdef Hok. unfold mode_ok in Hok.
  destruct (d !! "type") as [ty|] eqn:Hty;
    [|eexists; by apply deformation_without_type].
  destruct (is_ss ty) eqn:Hss.
  - exists (KeyError "plane").
    apply (deformation_without_geometry p d ty); [done|done|done|].
    unfold missing_geometry. rewrite Hss.
    destruct (d !! "plane"); [|done].
    apply bool_decide_eq_false_1 in Hok. destruct Hok. eauto.
  - destruct (is_ps ty) eqn:Hps; [|by apply (deformation_of_other_type p d ty)].
    destruct (d !! "axis") as [a|] eqn:Haxis.
    + exists (KeyError "r").
      apply (deformation_without_geometry p d ty); [done|done|done|].
      unfold missing_geometry. rewrite Hss, Hps, Haxis.
      destruct (d !! "r"); [|done].
      apply andb_false_iff in Hok as [Hok|Hok];
        apply bool_decide_eq_false_1 in Hok; destruct Hok; eauto.
    + exists (KeyError "axis").
      apply (deformation_without_geometry p d ty); [done|done|done|].
      unfold missing_geometry. by rewrite Hss, Hps, Haxis.
Qed.

Lemma init_state_refuses p d :
  nlm0_ok sf p = false ->
  exists e,
    init_state sf p d = (Raise e, d, [EvAlloc BufNlm (Nt p + 1)])
    /\ match nlm0 p with
       | None => e = IndexError
       | Some _ => exists msg, e = ValueError msg
       end.
Proof.
  intros Hok. unfold init_state, bind, tell, nlm0_ok in *.
  destruct (nlm0 p) as [v|].
  - apply bool_decide_eq_false_1 in Hok.
    unfold set_row. rewrite lookup_np_zeros2 by lia. rewrite length_np_zeros.
    destruct (decide (length v = sf_nlm_len sf)) as [Hv|Hv]; [destruct Hok; auto|].
    destruct v as [|x [|y v]];
      [eexists; split; [reflexivity|eauto]| |eexists; split; [reflexivity|eauto]].
    destruct Hok. auto.
  - apply bool_decide_eq_false_1 in Hok.
    unfold set_item. rewrite lookup_np_zeros2 by lia. rewrite length_np_zeros.
    destruct (decide (0 < sf_nlm_len sf)); [done|]. eexists. split; reflexivity.
Qed.

Lemma call_of_refused_mode mode p e :
  deformation sf p (with_T mode) = (Raise e, with_T mode, []) ->
  call sf mode p = (Raise e, with_T mode, []).
Proof.
  intros Hdef. unfold call, lagrangianparcel. apply bind_raise.
  unfold setup. rewrite bind_default_T. by apply bind_raise.
Qed.

Lemma call_of_refused_state mode p :
  mode_ok mode = true -> nlm0_ok sf p = false -> step_size_defined p = true ->
  exists e,
    call sf mode p
    = (Raise e, with_T mode,
       [EvAlloc BufF (Nt p + 1); EvAlloc BufTime (Nt p + 1);
        EvAlloc BufNlm (Nt p + 1)])
    /\ match nlm0 p with
       | None => e = IndexError
       | Some _ => exists msg, e = ValueError msg
       end.
Proof.
  intros Hm Hn Hdef.
  destruct (init_state_refuses p (with_T mode) Hn) as (e & He & Hkind).
  exists e. split; [|exact Hkind]. unfold call, lagrangianparcel.
  erewrite bind_raise; [reflexivity|].
  unfold setup. rewrite bind_default_T. unfold bind.
  rewrite deformation_run;
    [| by rewrite mode_ok_with_T | apply lookup_with_T | done].
  destruct (sf_ugrad_to_D_and_W sf (velocity_gradient sf (with_T mode))) as [D W].
  simpl. rewrite He. reflexivity.
Qed.

(** X1. For a library that keeps its contract on shapes, and when the
  division that gives the step size is not by zero, the call returns a
  result exactly when the dict names a supported mode with its geometric
  entries, the initial vector is absent (and the library has a coefficient)
  or has the length of a row or length one, and the custom regularization is
  not asked for without [nu]; in every other case it raises. *)
Theorem call_returns_iff_runnable mode p :
sf_shaped sf -> step_size_defined p = true ->
((exists out, res_of (call sf mode p) = Ok out) <-> runnable sf mode p = true)
/\ (runnable sf mode p = false -> exists e, res_of (call sf mode p) = Raise e).
Proof.
intros Hsf Hdef.
assert (Hraise : runnable sf mode p = false -> exists e, res_of (call sf mode p) = Raise e).
{ unfold runnable. intros Hrun.
  destruct (mode_ok mode) eqn:Hm.
  - destruct (nlm0_ok sf p) eqn:Hn;
      [|destruct (call_of_refused_state mode p Hm Hn Hdef) as (e & He & _);
        exists e; by rewrite He].
    simpl in Hrun. unfold reg_ok in Hrun.
    destruct (regexpo p) as [e|] eqn:He; [|by destruct (nu p)].
    destruct (nu p) as [n|] eqn:Hnu; [discriminate|].
    eexists. by apply (custom_regularization_needs_nu sf mode p e).
  - destruct (deformation_refuses p (with_T mode)) as [e He].
    + apply lookup_with_T.
    + done.
    + by rewrite mode_ok_with_T.
    + exists e. by rewrite (call_of_refused_mode mode p e He). }
split; [|exact Hraise]. split.
- intros [out Hout]. destruct (runnable sf mode p) eqn:Hrun; [done|].
  destruct (Hraise eq_refl) as [e He]. rewrite He in Hout. discriminate.
- intros Hrun.
  destruct (call_run sf mode p Hsf Hrun Hdef) as (s & nlm & _ & _ & Hcall & _).
  eexists. by rewrite Hcall.
Qed.

(** X2. A dict without the entry [type] makes the call raise the key error
  of that entry.  Line 17 has run, and nothing else: no array has been
  created and the library has not been asked for anything. *)
Theorem missing_type_raises_key_error mode p :
mode !! "type" = None ->
call sf mode p = (Raise (KeyError "type"), with_T mode, []).
Proof.
intros Hty. apply call_of_refused_mode, deformation_without_type.
by rewrite lookup_with_T_ne.
Qed.

(** X3. A dict of a supported type that lacks a geometric entry makes the
  call raise the key error of the first entry that is missing, in the order
  in which the source reads them: [plane] for a simple shear, and [axis],
  then [r], for a pure shear.  No array has been created by then. *)
Theorem missing_geometry_raises_key_error mode p ty k :
mode !! "type" = Some ty -> missing_geometry mode ty = Some k ->
step_size_defined p = true ->
call sf mode p = (Raise (KeyError k), with_T mode, []).
Proof.
intros Hty Hk Hdef. apply call_of_refused_mode.
apply (deformation_without_geometry p (with_T mode) ty).
- by rewrite lookup_with_T_ne.
- apply lookup_with_T.
- done.
- unfold missing_geometry in *. by rewrite !lookup_with_T_ne.
Qed.

(** X4. A supported mode with an initial vector that is refused (one whose
  length is neither that of a row nor one, or none at all for a library
  without coefficients) makes the call raise after the three arrays have
  been created and before any operator is asked for: an index error when
  no vector was supplied, and numpy's value error for a supplied vector,
  also when the custom regularization would have raised, too. *)
Theorem refused_initial_vector mode p :
mode_ok mode = true -> nlm0_ok sf p = false -> step_size_defined p = true ->
exists e,
  call sf mode p
  = (Raise e, with_T mode,
     [EvAlloc BufF (Nt p + 1); EvAlloc BufTime (Nt p + 1); EvAlloc BufNlm (Nt p + 1)])
  /\ match nlm0 p with
     | None => e = IndexError
     | Some _ => exists msg, e = ValueError msg
     end.
Proof. intros Hm Hn Hdef. by apply call_of_refused_state. Qed.

(** X5. The time scale [T] of a mode is 1 when the dict has none: a call on
  a dict without [T] returns, reports and leaves what the call on the same
  dict with the entry [T = 1] does. *)
Theorem omitted_time_scale_is_one mode p :
mode !! "T" = None ->
call sf (<["T" := PNum (of_nat 1)]> mode) p = call sf mode p.
Proof.
intros HT. rewrite <- (call_with_T sf mode p). unfold with_T. by rewrite HT.
Qed.
End Refusals.

(** ** What a run returns and reports *)

Section LogFacts.
Context {C : Type}.
Implicit Types (d : gmap string (pyval C)) (P : event -> Prop).

Lemma logs_only_ret {A} P (a : A) : logs_only (C:=C) P (ret a).
Proof. intros d. constructor. Qed.

Lemma logs_only_raise {A} P e : logs_only (C:=C) P (raise (A:=A) e).
Proof. intros d. constructor. Qed.

Lemma logs_only_tell P ev : P ev -> logs_only (C:=C) P (tell ev).
Proof. intros Hev d. by repeat constructor. Qed.

Lemma logs_only_dict_get P k : logs_only (C:=C) P (dict_get k).
Proof. intros d. unfold dict_get. destruct (d !! k); constructor. Qed.

Lemma logs_only_dict_has P k : logs_only (C:=C) P (dict_has k).
Proof. intros d. constructor. Qed.

Lemma logs_only_dict_set P k v : logs_only (C:=C) P (dict_set k v).
Proof. intros d. constructor. Qed.

Lemma logs_only_when P (b : bool) ev :
  (b = true -> P ev) -> logs_only (C:=C) P (when b (tell ev)).
Proof.
  intros Hev. destruct b; [apply logs_only_tell; auto|apply logs_only_ret].
Qed.

Lemma logs_only_bind {A B} P (m : M A) (k : A -> M B) :
  logs_only (C:=C) P m -> (forall a, logs_only P (k a)) -> logs_only P (bind m k).
Proof.
  intros Hm Hk d. unfold bind. specialize (Hm d).
  destruct (m d) as [[[a|e] d1] l1]; unfold log_of in *; simpl in *; [|done].
  specialize (Hk a d1). destruct (k a d1) as [[r d2] l2]. simpl in *.
  by apply Forall_app.
Qed.

Lemma logs_only_foldM {A B} P (f : B -> A -> M B) l :
  (forall b a, logs_only (C:=C) P (f b a)) -> forall b, logs_only P (foldM f l b).
Proof.
  intros Hf. induction l as [|a l IH]; intros b; simpl.
  - apply logs_only_ret.
  - apply logs_only_bind; auto.
Qed.
End LogFacts.

Ltac logging :=
  repeat first
    [ apply logs_only_ret | apply logs_only_raise | apply logs_only_dict_get
    | apply logs_only_dict_has | apply logs_only_dict_set
    | apply logs_only_tell; done
    | apply logs_only_when; done
    | apply logs_only_bind; [|intros]
    | match goal with
      | |- logs_only _ (match ?x with _ => _ end) => destruct x
      end ].

Section Reports.
Context {C : Type} `{Num C}.
Variable sf : specfab C.
Implicit Types (d mode : gmap string (pyval C)) (p : params C).

(** Every event of a call satisfies [P] when the events that the arguments
    allow do. *)
Lemma logs_only_call (P : event -> Prop) p :
  (forall b n, P (EvAlloc b n)) -> (forall nt, P (EvStore nt)) ->
  (verbose p = true -> P EvBar) ->
  (is_Some (Gamma0 p) -> P (EvOperator OpDDRX)) ->
  (regexpo p = None -> is_Some (nu p) -> P (EvOperator OpREG)) ->
  (is_Some (regexpo p) -> P (EvOperator OpLmat)) ->
  (is_Some (Lambda p) -> P (EvOperator OpCDRX)) ->
  (is_Some (iota p) -> P (EvOperator OpLROT)) ->
  logs_only P (lagrangianparcel sf p).
Proof.
  intros Halloc Hstore Hbar Hddrx Hreg Hlmat Hcdrx Hlrot.
  unfold lagrangianparcel. apply logs_only_bind.
  - unfold setup. apply logs_only_bind; [unfold default_T; logging|]. intros _.
    apply logs_only_bind.
    { unfold deformation, divide_by_steps.
      apply logs_only_bind; [logging|]. intros ty.
      repeat match goal with
             | |- logs_only _ (if ?b then _ else _) => destruct b
             end; logging; apply logs_only_tell, Halloc. }
    intros [[dt' F] ugrad]. destruct (sf_ugrad_to_D_and_W sf ugrad) as [D W].
    apply logs_only_bind; [apply logs_only_tell, Halloc|]. intros _.
    apply logs_only_bind.
    { unfold init_state. apply logs_only_bind; [apply logs_only_tell, Halloc|].
      intros _. unfold set_item, set_row. logging. }
    intros nlm. apply logs_only_bind; [unfold get_row; logging|]. intros v.
    apply logs_only_bind.
    { unfold regularization, M_REG_custom.
      destruct (regexpo p) as [e|] eqn:He.
      - apply logs_only_bind; [apply logs_only_tell, Hlmat; eauto|]. intros _.
        logging.
      - destruct (nu p) as [n|] eqn:Hnu; [|logging].
        apply logs_only_bind; [apply logs_only_tell, Hreg; eauto|]. intros _.
        logging. }
    intros MR. apply logs_only_bind.
    { unfold cdrx. destruct (Lambda p) as [l|] eqn:Hl; [|logging].
      apply logs_only_bind; [apply logs_only_tell, Hcdrx; eauto|]. intros _.
      logging. }
    intros MC. apply logs_only_bind.
    { unfold lattice_rotation. destruct (iota p) as [i|] eqn:Hi; [|logging].
      apply logs_only_bind; [apply logs_only_tell, Hlrot; eauto|]. intros _.
      logging. }
    intros ML. logging.
  - intros s. apply logs_only_bind; [by apply logs_only_when|]. intros _.
    apply logs_only_bind; [|intros; logging].
    apply logs_only_foldM. intros nlm nt. unfold step.
    apply logs_only_bind; [unfold get_row; logging|]. intros v.
    apply logs_only_bind.
    { apply logs_only_when. intros Hg. apply Hddrx.
      by apply bool_decide_eq_true_1 in Hg. }
    intros _. apply logs_only_bind; [unfold set_row; logging|]. intros nlm'.
    apply logs_only_bind; [by apply logs_only_tell|]. intros _.
    apply logs_only_bind; [by apply logs_only_when|]. intros _. logging.
Qed.

Lemma stored_rows_app (l1 l2 : list event) :
  stored_rows (l1 ++ l2) = stored_rows l1 ++ stored_rows l2.
Proof. apply omap_app. Qed.

Lemma stored_rows_before_loop p : stored_rows (setup_log p ++ bar_log p) = [].
Proof.
  unfold setup_log, reg_log, cdrx_log, lrot_log, bar_log.
  destruct (regexpo p), (nu p), (Lambda p), (iota p), (verbose p); reflexivity.
Qed.

Lemma stored_rows_loop p j k : stored_rows (loop_log p j k) = seq j k.
Proof.
  unfold loop_log. revert j. induction k as [|k IH]; intros j; [reflexivity|].
  simpl. rewrite stored_rows_app, IH. unfold step_log.
  destruct (bool_decide _), (verbose p); reflexivity.
Qed.

Lemma count_app (f : event -> bool) (l1 l2 : list event) :
  length (List.filter f (l1 ++ l2))
  = length (List.filter f l1) + length (List.filter f l2).
Proof. by rewrite List.filter_app, length_app. Qed.

Lemma count_bar_loop p j k :
  length (List.filter is_bar (loop_log p j k)) = if verbose p then k else 0.
Proof.
  unfold loop_log. revert j. induction k as [|k IH]; intros j.
  - by destruct (verbose p).
  - simpl. rewrite count_app, IH. unfold step_log.
    destruct (bool_decide _), (verbose p); reflexivity.
Qed.

Lemma count_bar_before_loop p :
  length (List.filter is_bar (setup_log p ++ bar_log p)) = if verbose p then 1 else 0.
Proof.
  unfold setup_log, reg_log, cdrx_log, lrot_log, bar_log.
  destruct (regexpo p), (nu p), (Lambda p), (iota p), (verbose p); reflexivity.
Qed.

Lemma count_migration_loop p j k :
  length (List.filter is_migration_call (loop_log p j k))
  = match Gamma0 p with Some _ => k | None => 0 end.
Proof.
  unfold loop_log. revert j. induction k as [|k IH]; intros j.
  - by destruct (Gamma0 p).
  - simpl. rewrite count_app, IH. unfold step_log.
    destruct (Gamma0 p), (verbose p); reflexivity.
Qed.

Lemma count_migration_before_loop p :
  length (List.filter is_migration_call (setup_log p ++ bar_log p)) = 0.
Proof.
  unfold setup_log, reg_log, cdrx_log, lrot_log, bar_log.
  destruct (regexpo p), (nu p), (Lambda p), (iota p), (verbose p); reflexivity.
Qed.

Lemma log_of_run mode p :
  sf_shaped sf -> runnable sf mode p = true -> step_size_defined p = true ->
  log_of (call sf mode p) = (setup_log p ++ bar_log p) ++ loop_log p 1 (Nt p).
Proof.
  intros Hsf Hrun Hdef.
  destruct (call_run sf mode p Hsf Hrun Hdef) as (s & nlm & _ & _ & Hcall & _).
  rewrite Hcall. unfold log_of. simpl. by rewrite app_assoc.
Qed.

(** X6. For accepted arguments the call returns, with the history, the
  series of [Nt+1] deformation gradients whose entry [k] is the library's
  gradient of the mode at the time [dt * k], for the geometric entries and
  the time scale of the dict, and the library's velocity gradient of the
  mode.  A supplied step size is the [dt] used, and the [Nt+1] time stamps
  are then its multiples [dt * k]. *)
Theorem gradient_series_returned mode p :
sf_shaped sf -> accepted sf mode p = true ->
exists out,
  res_of (call sf mode p) = Ok out
  /\ length (out_F out) = Nt p + 1
  /\ (forall k, k <= Nt p ->
        out_F out !! k
        = Some (gradient_at sf (with_T mode)
                  (cmul (step_size sf (with_T mode) p) (of_nat k))))
  /\ out_ugrad out = velocity_gradient sf (with_T mode)
  /\ (forall x, dt p = Some x ->
        step_size sf (with_T mode) p = x
        /\ length (out_time out) = Nt p + 1
        /\ forall k, k <= Nt p -> out_time out !! k = Some (cmul x (of_nat k))).
Proof.
intros Hsf Hacc. apply accepted_inv in Hacc as [Hrun Hdef].
destruct (call_run sf mode p Hsf Hrun Hdef) as (s & nlm & _ & Hok & Hcall & _).
eexists. split; [by rewrite Hcall|]. simpl.
rewrite (ok_F _ _ _ _ Hok), (ok_ugrad _ _ _ _ Hok), (ok_time _ _ _ _ Hok).
unfold gradient_series, time_stamps.
split; [by rewrite length_fmap, length_seq|]. split; [|split; [done|]].
- intros k Hk. by rewrite list_lookup_fmap, lookup_seq_lt by lia.
- intros x Hx. unfold step_size. rewrite Hx.
  split; [done|]. split; [by rewrite length_fmap, length_seq|].
  intros k Hk. by rewrite list_lookup_fmap, lookup_seq_lt by lia.
Qed.

(** X7. For accepted arguments the returned history has [Nt+1] rows of
  [nlm_len] coefficients, its row 0 is the initial row, and the loop stores
  each of the rows [1..Nt] exactly once, in increasing order, and never
  row 0. *)
Theorem history_shape_and_row_stores mode p :
sf_shaped sf -> accepted sf mode p = true ->
exists out,
  res_of (call sf mode p) = Ok out
  /\ shape (Nt p + 1) (sf_nlm_len sf) (out_nlm out)
  /\ out_nlm out !! 0 = Some (initial_row sf p)
  /\ stored_rows (log_of (call sf mode p)) = seq 1 (Nt p).
Proof.
intros Hsf Hacc. apply accepted_inv in Hacc as [Hrun Hdef].
destruct (call_run sf mode p Hsf Hrun Hdef) as (s & nlm & _ & _ & Hcall & Hshape & Hrow & _).
eexists. split; [by rewrite Hcall|]. simpl. split; [done|]. split; [done|].
rewrite (log_of_run mode p Hsf Hrun Hdef), stored_rows_app, stored_rows_before_loop.
apply stored_rows_loop.
Qed.

(** X8. With no step to take ([Nt = 0], which needs a supplied step size)
  the call returns the history of the single initial row, one deformation
  gradient and one time stamp, both at the time [dt * 0], and stores no
  row. *)
Theorem zero_steps_return_initial_row mode p :
sf_shaped sf -> accepted sf mode p = true -> Nt p = 0 ->
exists out x,
  res_of (call sf mode p) = Ok out
  /\ dt p = Some x
  /\ out_nlm out = [initial_row sf p]
  /\ out_F out = [gradient_at sf (with_T mode) (cmul x (of_nat 0))]
  /\ out_time out = [cmul x (of_nat 0)]
  /\ stored_rows (log_of (call sf mode p)) = [].
Proof.
intros Hsf Hacc HNt. apply accepted_inv in Hacc as [Hrun Hdef].
pose proof Hdef as Hsome. unfold step_size_defined in Hsome.
destruct (dt p) as [x|] eqn:Hdt;
  [|apply bool_decide_eq_true_1 in Hsome; done].
destruct (call_run sf mode p Hsf Hrun Hdef)
  as (s & nlm & _ & Hok & Hcall & [Hlen _] & Hrow & _).
eexists. exists x. split; [by rewrite Hcall|]. simpl. split; [done|].
rewrite (ok_F _ _ _ _ Hok), (ok_time _ _ _ _ Hok).
unfold gradient_series, time_stamps, step_size. rewrite Hdt, HNt. simpl.
split; [|split; [done|split; [done|]]].
- rewrite HNt in Hlen. destruct nlm as [|row [|row' nlm]]; try discriminate.
  simpl in Hrow. by injection Hrow as ->.
- rewrite (log_of_run mode p Hsf Hrun Hdef), stored_rows_app, stored_rows_before_loop.
  rewrite stored_rows_loop, HNt. reflexivity.
Qed.

(** X9. Whatever the outcome of the call, the progress bar is not touched
  when [verbose] is off.  When it is on and the arguments are accepted the
  bar is reported [Nt+1] times: once when it is created and once after each
  of the [Nt] stores. *)
Theorem progress_bar_reports mode p :
(verbose p = false ->
   Forall (fun ev => is_bar ev = false) (log_of (call sf mode p)))
/\ (sf_shaped sf -> accepted sf mode p = true ->
      length (List.filter is_bar (log_of (call sf mode p)))
      = if verbose p then Nt p + 1 else 0).
Proof.
split.
- intros Hv. apply (logs_only_call (fun ev => is_bar ev = false)); try done.
  rewrite Hv. discriminate.
- intros Hsf Hacc. apply accepted_inv in Hacc as [Hrun Hdef].
  rewrite (log_of_run mode p Hsf Hrun Hdef), count_app, count_bar_before_loop,
    count_bar_loop.
  destruct (verbose p); lia.
Qed.

(** X10. Whatever the outcome of the call, the library's migration operator
  is not asked for when [Gamma0] is omitted.  When [Gamma0] is given and
  the arguments are accepted it is asked for [Nt] times, once in every
  step. *)
Theorem migration_operator_once_per_step mode p :
(Gamma0 p = None ->
   Forall (fun ev => is_migration_call ev = false) (log_of (call sf mode p)))
/\ (sf_shaped sf -> accepted sf mode p = true ->
      length (List.filter is_migration_call (log_of (call sf mode p)))
      = match Gamma0 p with Some _ => Nt p | None => 0 end).
Proof.
split.
- intros Hg. apply (logs_only_call (fun ev => is_migration_call ev = false)); try done.
  rewrite Hg. by intros [x Hx].
- intros Hsf Hacc. apply accepted_inv in Hacc as [Hrun Hdef].
  rewrite (log_of_run mode p Hsf Hrun Hdef), count_app, count_migration_before_loop,
    count_migration_loop.
  reflexivity.
Qed.

(** X11. Whatever the outcome of the call, the two ways to the
  regularization exclude each other: with the custom exponent set the
  library's default regularization is never asked for, also when [nu] is
  given, and without it the library's Laplacian matrix is never asked for;
  without [nu] and without the exponent neither is. *)
Theorem regularization_paths_exclusive mode p :
Forall (fun ev => ev <> EvOperator (match regexpo p with
                                    | Some _ => OpREG
                                    | None => OpLmat
                                    end))
  (log_of (call sf mode p))
/\ (nu p = None -> regexpo p = None ->
      Forall (fun ev => ev <> EvOperator OpREG /\ ev <> EvOperator OpLmat)
        (log_of (call sf mode p))).
Proof.
split.
- apply logs_only_call; intros; destruct (regexpo p) eqn:He;
    try discriminate;
    repeat match goal with
           | Hs : is_Some None |- _ => destruct Hs; discriminate
           end.
- intros Hnu He.
  apply (logs_only_call (fun ev => ev <> EvOperator OpREG /\ ev <> EvOperator OpLmat));
    try (intros; split; discriminate).
  + rewrite Hnu. by intros _ [x Hx].
  + rewrite He. by intros [x Hx].
Qed.

(** X12. On the custom path the regularization of a run is what the builder
  [M_REG_custom] returns for the strain rate of the mode, the given [nu]
  and the given exponent: the operator that every step uses does not depend
  on the initial vector or on the number of steps, whatever the library
  does with the state it is given. *)
Theorem custom_regularization_in_a_run mode p n e :
sf_shaped sf -> accepted sf mode p = true ->
regexpo p = Some e -> nu p = Some n ->
exists s,
  res_of (setup sf p mode) = Ok s
  /\ M_REG_custom sf (Some n) e (strain_rate sf (with_T mode)) (with_T mode)
     = (Ok (pr_M_REG s), with_T mode, [EvOperator OpLmat])
  /\ pr_M_REG s = custom_operator sf n e (strain_rate sf (with_T mode))
  /\ forall v steps s',
       runnable sf mode (with_Nt (with_nlm0 p v) steps) = true ->
       res_of (setup sf (with_Nt (with_nlm0 p v) steps) mode) = Ok s' ->
       pr_M_REG s' = pr_M_REG s.
Proof.
intros Hsf Hacc He Hnu. apply accepted_inv in Hacc as [Hrun Hdef].
destruct (setup_run sf mode p Hsf Hrun Hdef) as (s & Hs & Hok).
assert (Hreg : forall q s0, regexpo q = Some e -> nu q = Some n ->
          prepared_ok sf (with_T mode) q s0 ->
          pr_M_REG s0 = custom_operator sf n e (strain_rate sf (with_T mode))).
{ intros q s0 Hqe Hqn Hq. pose proof (ok_REG _ _ _ _ Hq) as E.
  unfold regularization in E. rewrite Hqe, Hqn, M_REG_custom_run in E.
  by injection E as <-. }
exists s. split; [by rewrite Hs|].
rewrite M_REG_custom_run, (Hreg p s He Hnu Hok). split; [done|]. split; [done|].
intros v steps s' Hrun' Hs'.
destruct (step_size_defined (with_Nt (with_nlm0 p v) steps)) eqn:Hdef'.
- destruct (setup_run sf mode _ Hsf Hrun' Hdef') as (s'' & Hs'' & Hok').
  rewrite Hs'' in Hs'. injection Hs' as <-.
  exact (Hreg (with_Nt (with_nlm0 p v) steps) s'' He Hnu Hok').
- apply runnable_inv in Hrun' as (Hm & _ & _).
  rewrite (setup_divides_by_zero sf mode _ Hm Hdef') in Hs'. discriminate.
Qed.
End Reports.

(** ** What the result depends on *)

Section BlindFacts.
Context {C : Type}.
Implicit Types d : gmap string (pyval C).

Lemma blind_ret {A} (a : A) : blind (C:=C) (ret a).
Proof. intros d1 d2. auto. Qed.

Lemma blind_raise {A} e : blind (C:=C) (raise (A:=A) e).
Proof. intros d1 d2. auto. Qed.

Lemma blind_tell ev : blind (C:=C) (tell ev).
Proof. intros d1 d2. auto. Qed.

Lemma blind_when b ev : blind (C:=C) (when b (tell ev)).
Proof. intros d1 d2. destruct b; auto. Qed.

(** Computations that agree on two dicts still do when they go on with
    computations that do not read the dict. *)
Lemma bind_agree {A B} (m : M A) (k : A -> M B) d1 d2 :
  res_of (m d1) = res_of (m d2) /\ log_of (m d1) = log_of (m d2) ->
  (forall a, blind (C:=C) (k a)) ->
  res_of (bind m k d1) = res_of (bind m k d2)
  /\ log_of (bind m k d1) = log_of (bind m k d2).
Proof.
  intros [Hr Hl] Hk. unfold bind.
  destruct (m d1) as [[r1 e1] l1], (m d2) as [[r2 e2] l2].
  unfold res_of, log_of in *. simpl in *. subst.
  destruct r2 as [a|e]; [|auto].
  destruct (Hk a e1 e2) as [Hr' Hl'].
  destruct (k a e1) as [[r3 e3] l3], (k a e2) as [[r4 e4] l4].
  simpl in *. by subst.
Qed.

Lemma blind_bind {A B} (m : M A) (k : A -> M B) :
  blind (C:=C) m -> (forall a, blind (k a)) -> blind (bind m k).
Proof. intros Hm Hk d1 d2. apply bind_agree; auto. Qed.

Lemma blind_foldM {A B} (f : B -> A -> M B) l :
  (forall b a, blind (C:=C) (f b a)) -> forall b, blind (foldM f l b).
Proof.
  intros Hf. induction l as [|a l IH]; intros b; simpl.
  - apply blind_ret.
  - apply blind_bind; auto.
Qed.
End BlindFacts.

Ltac blinding :=
  repeat first
    [ apply blind_ret | apply blind_raise | apply blind_tell | apply blind_when
    | apply blind_bind; [|intros]
    | match goal with
      | |- blind (match ?x with _ => _ end) => destruct x
      end ].

Section Dependence.
Context {C : Type} `{Num C}.
Variable sf : specfab C.
Implicit Types (d mode : gmap string (pyval C)) (p : params C).

Lemma blind_after_deformation p (tr : C * list (list (list C)) * list (list C)) :
  blind (let '(dt', F, ugrad) := tr in
         let '(D, W) := sf_ugrad_to_D_and_W sf ugrad in
         let S := D in
         tell (EvAlloc BufTime (Nt p + 1)) ;;;
         let time := (fun k => cmul dt' (of_nat k)) <$> seq 0 (Nt p + 1) in
         nlm <- init_state sf p ;;
         nlm_dummy <- get_row nlm 0 ;;
         M_REG <- regularization sf p nlm_dummy D ;;
         M_CDRX <- cdrx sf p nlm_dummy ;;
         M_LROT <- lattice_rotation sf p nlm_dummy D W ;;
         ret {| pr_dt := dt'; pr_F := F; pr_ugrad := ugrad; pr_S := S;
                pr_time := time; pr_nlm := nlm;
                pr_M_LROT := M_LROT; pr_M_CDRX := M_CDRX; pr_M_REG := M_REG |}).
Proof.
  destruct tr as [[dt' F] ugrad]. destruct (sf_ugrad_to_D_and_W sf ugrad) as [D W].
  unfold init_state, set_item, set_row, get_row, regularization, M_REG_custom,
    cdrx, lattice_rotation.
  blinding.
Qed.

Lemma blind_loop p (s : prepared) :
  blind (when (verbose p) (tell EvBar) ;;;
         nlm <- foldM (step sf p (pr_dt s) (pr_M_LROT s) (pr_M_CDRX s) (pr_M_REG s)
                         (pr_S s))
                  (seq 1 (Nt p)) (pr_nlm s) ;;
         ret {| out_nlm := nlm; out_F := pr_F s; out_time := pr_time s;
                out_ugrad := pr_ugrad s |}).
Proof.
  apply blind_bind; [apply blind_when|]. intros _.
  apply blind_bind; [|intros; apply blind_ret].
  apply blind_foldM. intros nlm nt. unfold step, get_row, set_row. blinding.
Qed.

Lemma kind_of_with_T d : kind_of (with_T d) = kind_of d.
Proof. unfold kind_of. by rewrite lookup_with_T_ne. Qed.

Lemma same_mode_with_T d1 d2 : same_mode d1 d2 -> same_mode (with_T d1) (with_T d2).
Proof.
  intros (Hk & HT & Hpl & Hax & Hr). unfold same_mode.
  rewrite !kind_of_with_T, !(lookup_with_T_ne _ "plane"),
    !(lookup_with_T_ne _ "axis"), !(lookup_with_T_ne _ "r") by done.
  split; [done|]. split; [|done].
  unfold with_T. rewrite <- HT. destruct (d1 !! "T") as [v|] eqn:HT1.
  - by rewrite HT1.
  - by rewrite !lookup_insert_eq.
Qed.

Lemma bind_dict_get {B} k (f : pyval C -> M (C:=C) B) d v :
  d !! k = Some v -> bind (dict_get k) f d = f v d.
Proof.
  intros Hk. unfold bind. rewrite (dict_get_run _ _ _ Hk).
  by destruct (f v d) as [[r d'] l].
Qed.

Lemma deformation_same_mode p d1 d2 :
  same_mode d1 d2 ->
  res_of (deformation sf p d1) = res_of (deformation sf p d2)
  /\ log_of (deformation sf p d1) = log_of (deformation sf p d2).
Proof.
  intros (Hk & HT & Hpl & Hax & Hr). unfold kind_of in Hk.
  destruct (d1 !! "type") as [ty1|] eqn:H1, (d2 !! "type") as [ty2|] eqn:H2;
    [| destruct (is_ss ty1), (is_ps ty1), (is_rr ty1); discriminate
     | destruct (is_ss ty2), (is_ps ty2), (is_rr ty2); discriminate
     | by rewrite !deformation_without_type ].
  unfold deformation.
  rewrite (bind_dict_get "type" _ d1 ty1 H1), (bind_dict_get "type" _ d2 ty2 H2).
  fold (is_ss ty1) (is_ps ty1) (is_rr ty1) (is_ss ty2) (is_ps ty2) (is_rr ty2).
  destruct (is_ss ty1) eqn:E1.
  { assert (E2 : is_ss ty2 = true)
      by (destruct (is_ss ty2), (is_ps ty2), (is_rr ty2); done).
    rewrite E2.
    destruct (d2 !! "T") as [T|] eqn:HT2, (d2 !! "plane") as [pl|] eqn:Hpl2;
      unfold bind, dict_get, divide_by_steps;
      destruct (dt p), (decide (Nt p = 0)); simpl;
      repeat (progress (rewrite ?HT, ?Hpl, ?HT2, ?Hpl2; simpl)); done. }
  assert (E2 : is_ss ty2 = false)
    by (destruct (is_ss ty2), (is_ps ty1), (is_rr ty1); done).
  rewrite E2 in *. destruct (is_ps ty1) eqn:E3.
  { assert (E4 : is_ps ty2 = true) by (destruct (is_ps ty2), (is_rr ty2); done).
    rewrite E4.
    destruct (d2 !! "T") as [T|] eqn:HT2, (d2 !! "axis") as [ax|] eqn:Hax2,
      (d2 !! "r") as [r|] eqn:Hr2;
      unfold bind, dict_get, divide_by_steps;
      destruct (dt p), (decide (Nt p = 0)); simpl;
      repeat (progress (rewrite ?HT, ?Hax, ?Hr, ?HT2, ?Hax2, ?Hr2; simpl)); done. }
  assert (E4 : is_ps ty2 = false) by (destruct (is_ps ty2), (is_rr ty1); done).
  rewrite E4 in *. destruct (is_rr ty1), (is_rr ty2); try discriminate; [done|].
  injection Hk as ->. done.
Qed.

(** Calls on two dicts that name one mode return the same and report the
    same. *)
Lemma call_same_mode d1 d2 p :
  same_mode d1 d2 ->
  res_of (call sf d1 p) = res_of (call sf d2 p)
  /\ log_of (call sf d1 p) = log_of (call sf d2 p).
Proof.
  intros Hsame. unfold call, lagrangianparcel.
  apply bind_agree; [|apply blind_loop].
  unfold setup. rewrite !bind_default_T.
  apply bind_agree; [|apply blind_after_deformation].
  by apply deformation_same_mode, same_mode_with_T.
Qed.

(** X13. When the step size [dt] is supplied the target strain is not
  used: the call returns, reports and leaves the same for every target
  strain. *)
Theorem strain_target_unused_with_step_size mode p x strain :
dt p = Some x ->
call sf mode (with_strain p strain) = call sf mode p.
Proof.
intros Hdt. destruct p as [st n dt0 v0 vb io ze la ga nu0 re ab].
simpl in Hdt. subst dt0. reflexivity.
Qed.

(** X14. When [iota] is omitted the lattice rotation is off and [zeta]
  is not used: the call returns, reports and leaves the same for every
  [zeta]. *)
Theorem zeta_unused_without_iota mode p z :
iota p = None ->
call sf mode (with_zeta p z) = call sf mode p.
Proof.
intros Hi. destruct p as [st n dt0 v0 vb io ze la ga nu0 re ab].
simpl in Hi. subst io. reflexivity.
Qed.

(** X15. The result of a call depends on the dict only through the
  entries that the source reads, [type], [T], [plane], [axis] and [r]: two
  dicts that agree on these give the same result, be it a value or an
  exception, whatever else they hold. *)
Theorem result_depends_on_keys_read d1 d2 p :
Forall (fun k => d1 !! k = d2 !! k) keys_read ->
res_of (call sf d1 p) = res_of (call sf d2 p).
Proof.
intros Hkeys. unfold keys_read in Hkeys.
repeat match goal with
       | Hk : Forall _ (_ :: _) |- _ => apply Forall_cons in Hk as [? Hk]
       end.
apply call_same_mode. unfold same_mode, kind_of.
repeat split; try done. by replace (d1 !! "type") with (d2 !! "type").
Qed.

(** X16. The names of a mode are synonyms: replacing the type of a dict
  by another name of the same mode (simpleshear or ss; pureshear or ps;
  rigidrotation or rr) does not change the result of the call. *)
Theorem mode_names_are_synonyms mode p ty ty' :
mode !! "type" = Some ty ->
is_ss ty && is_ss ty' || is_ps ty && is_ps ty' || is_rr ty && is_rr ty' = true ->
res_of (call sf (<["type" := ty']> mode) p) = res_of (call sf mode p).
Proof.
intros Hty Hsyn. apply call_same_mode. unfold same_mode, kind_of.
rewrite lookup_insert_eq, Hty, !lookup_insert_ne by done.
repeat split; try done.
assert (Hexcl : forall t : pyval C,
  (is_ss t = true -> is_ps t = false /\ is_rr t = false)
  /\ (is_ps t = true -> is_rr t = false)).
{ intros [s|c]; [|by split].
  unfold is_ss, is_ps, is_rr, is_tag. split.
  - intros Hs. apply orb_true_iff in Hs as [Hs|Hs];
      apply bool_decide_eq_true_1 in Hs; by subst.
  - intros Hs. apply orb_true_iff in Hs as [Hs|Hs];
      apply bool_decide_eq_true_1 in Hs; by subst. }
destruct (Hexcl ty) as [Hss Hps], (Hexcl ty') as [Hss' Hps'].
destruct (is_ss ty), (is_ps ty), (is_rr ty), (is_ss ty'), (is_ps ty'), (is_rr ty');
  simpl in Hsyn; try done;
  repeat match goal with
         | Hx : true = true -> _ |- _ => specialize (Hx eq_refl)
         | Hx : _ /\ _ |- _ => destruct Hx
         end; done.
Qed.

(** X17. The library is asked only for what the arguments need: two
  libraries that have the same truncation, the same functions of the mode
  of deformation and the same constructors of the processes that are on
  give the same call, whatever their constructors of the omitted processes
  are. *)
Theorem omitted_processes_ignore_library sf1 sf2 mode p :
same_library_for p sf1 sf2 ->
call sf1 mode p = call sf2 mode p.
Proof.
unfold same_library_for. destruct sf1, sf2, p as [st n dt0 v0 vb io ze la ga nu0 re ab].
simpl. intros (-> & -> & -> & -> & -> & -> & -> & -> & -> & HR & HL & HC & HRot & HD).
destruct re as [e|], nu0 as [nu1|], la as [l|], io as [i|], ga as [g|];
  repeat match goal with
         | Hx : is_Some (Some ?y) -> _ |- _ => specialize (Hx (ex_intro _ y eq_refl))
         | Hx : None = None -> _ |- _ => specialize (Hx eq_refl)
         | Hx : Some _ = None -> _ |- _ => clear Hx
         | Hx : is_Some None -> _ |- _ => clear Hx
         end;
  subst; reflexivity.
Qed.
End Dependence.

(** ** Runs compared row by row *)

Section Trajectories.
Context {C : Type} `{Num C}.
Variable sf : specfab C.
Implicit Types (d mode : gmap string (pyval C)) (p : params C).

(** Two histories that start from one row and follow one recurrence have
    the same rows. *)
Lemma rows_agree (f : list C -> list C) (a b : list (list C)) (i j n : nat) :
  a !! i = b !! j ->
  (forall t, 1 <= t <= n ->
     exists v, a !! (i + t - 1) = Some v /\ a !! (i + t) = Some (f v)) ->
  (forall t, 1 <= t <= n ->
     exists v, b !! (j + t - 1) = Some v /\ b !! (j + t) = Some (f v)) ->
  forall t, t <= n -> a !! (i + t) = b !! (j + t).
Proof.
  intros H0 Ha Hb t. induction t as [|t IH]; intros Ht.
  - by rewrite !Nat.add_0_r.
  - destruct (Ha (S t)) as (v & Hv & Hfv); [lia|].
    destruct (Hb (S t)) as (w & Hw & Hfw); [lia|].
    replace (i + S t - 1) with (i + t) in Hv by lia.
    replace (j + S t - 1) with (j + t) in Hw by lia.
    rewrite IH, Hw in Hv by lia. injection Hv as ->. by rewrite Hfv, Hfw.
Qed.

(** States of one length give the same steady operators when the
    library reads only the shape of the state. *)
Lemma steady_of_length p (v1 v2 : list C) D W d :
  shape_only sf -> length v1 = length v2 ->
  regularization sf p v1 D d = regularization sf p v2 D d
  /\ cdrx sf p v1 d = cdrx sf p v2 d
  /\ lattice_rotation sf p v1 D W d = lattice_rotation sf p v2 D W d.
Proof.
  intros Hshape Hlen. destruct (Hshape v1 v2 Hlen) as (HR & HC & HL).
  unfold regularization, cdrx, lattice_rotation.
  destruct (regexpo p), (nu p), (Lambda p), (iota p); by rewrite ?HR, ?HC, ?HL.
Qed.

Lemma same_steady_operators d p p' s s' :
  prepared_ok sf d p s -> prepared_ok sf d p' s' ->
  regularization sf p (initial_row sf p) (strain_rate sf d) d
  = regularization sf p' (initial_row sf p') (strain_rate sf d) d ->
  cdrx sf p (initial_row sf p) d = cdrx sf p' (initial_row sf p') d ->
  lattice_rotation sf p (initial_row sf p) (strain_rate sf d) (spin sf d) d
  = lattice_rotation sf p' (initial_row sf p') (strain_rate sf d) (spin sf d) d ->
  pr_M_REG s = pr_M_REG s' /\ pr_M_CDRX s = pr_M_CDRX s'
  /\ pr_M_LROT s = pr_M_LROT s' /\ pr_S s = pr_S s'.
Proof.
  intros Hok Hok' HR HC HL.
  pose proof (ok_REG _ _ _ _ Hok) as E1. pose proof (ok_REG _ _ _ _ Hok') as E1'.
  pose proof (ok_CDRX _ _ _ _ Hok) as E2. pose proof (ok_CDRX _ _ _ _ Hok') as E2'.
  pose proof (ok_LROT _ _ _ _ Hok) as E3. pose proof (ok_LROT _ _ _ _ Hok') as E3'.
  rewrite HR, E1' in E1. rewrite HC, E2' in E2. rewrite HL, E3' in E3.
  injection E1 as E1. injection E2 as E2. injection E3 as E3.
  rewrite (ok_S _ _ _ _ Hok), (ok_S _ _ _ _ Hok'). auto.
Qed.

(** The rows of a run, as a recurrence with the operators of another run
    that has the same. *)
Lemma run_rows mode p x :
  sf_shaped sf -> runnable sf mode p = true -> step_size_defined p = true ->
  step_size sf (with_T mode) p = x ->
  exists s out,
    prepared_ok sf (with_T mode) p s
    /\ res_of (call sf mode p) = Ok out
    /\ out_F out = gradient_series sf (with_T mode) p
    /\ out_time out = time_stamps sf (with_T mode) p
    /\ shape (Nt p + 1) (sf_nlm_len sf) (out_nlm out)
    /\ out_nlm out !! 0 = Some (initial_row sf p)
    /\ (forall ML MC MR Sx,
          pr_M_LROT s = ML -> pr_M_CDRX s = MC -> pr_M_REG s = MR -> pr_S s = Sx ->
          forall i t, i + t <= Nt p -> 1 <= t ->
            exists v, out_nlm out !! (i + t - 1) = Some v
                      /\ out_nlm out !! (i + t) = Some (next sf p x ML MC MR Sx v)).
Proof.
  intros Hsf Hrun Hdef Hdt.
  destruct (call_run sf mode p Hsf Hrun Hdef)
    as (s & nlm & _ & Hok & Hcall & Hshape & Hrow & Hrec).
  exists s. eexists. split; [done|]. split; [by rewrite Hcall|]. simpl.
  split; [apply (ok_F _ _ _ _ Hok)|]. split; [apply (ok_time _ _ _ _ Hok)|].
  split; [done|]. split; [done|].
  intros ML MC MR Sx <- <- <- <- i t Hit Ht.
  destruct (Hrec (i + t)) as (v & Hv & Hnext); [lia|].
  exists v. split; [done|]. rewrite Hnext.
  by rewrite (ok_dt _ _ _ _ Hok), Hdt.
Qed.

Lemma step_size_supplied d p x : dt p = Some x -> step_size sf d p = x.
Proof. intros Hdt. unfold step_size. by rewrite Hdt. Qed.

(** X18. With a supplied step size a longer run extends a shorter one: the
  run of [Nt + k] steps has, at every index up to [Nt], the row, the
  deformation gradient and the time stamp of the run of [Nt] steps. *)
Theorem longer_run_extends_shorter mode p x k :
sf_shaped sf -> runnable sf mode p = true -> dt p = Some x ->
exists out out',
  res_of (call sf mode p) = Ok out
  /\ res_of (call sf mode (with_Nt p (Nt p + k))) = Ok out'
  /\ forall t, t <= Nt p ->
       out_nlm out' !! t = out_nlm out !! t
       /\ out_F out' !! t = out_F out !! t
       /\ out_time out' !! t = out_time out !! t.
Proof.
intros Hsf Hrun Hdt.
pose proof (step_size_supplied (with_T mode) p x Hdt) as Hx.
pose proof (step_size_defined_supplied p x Hdt) as Hdef.
destruct (run_rows mode p x Hsf Hrun Hdef Hx)
  as (s & out & Hok & Hout & HF & Htime & _ & Hrow & Hrec).
destruct (run_rows mode (with_Nt p (Nt p + k)) x Hsf Hrun
            (step_size_defined_supplied (with_Nt p (Nt p + k)) x Hdt)
            (step_size_supplied (with_T mode) (with_Nt p (Nt p + k)) x Hdt))
  as (s' & out' & Hok' & Hout' & HF' & Htime' & _ & Hrow' & Hrec').
exists out, out'. split; [done|]. split; [done|].
destruct (same_steady_operators _ _ _ _ _ Hok' Hok eq_refl eq_refl eq_refl)
  as (ER & EC & EL & ES).
intros t Ht. split; [|split].
- apply (rows_agree (next sf p x (pr_M_LROT s) (pr_M_CDRX s) (pr_M_REG s) (pr_S s))
           (out_nlm out') (out_nlm out) 0 0 (Nt p)); [| | |done].
  + by rewrite Hrow, Hrow'.
  + intros u Hu. apply (Hrec' _ _ _ _ EL EC ER ES 0 u); simpl; lia.
  + intros u Hu. apply (Hrec _ _ _ _ eq_refl eq_refl eq_refl eq_refl 0 u); lia.
- rewrite HF, HF'. unfold gradient_series, step_size. simpl. rewrite Hdt.
  by rewrite !list_lookup_fmap, !lookup_seq_lt by lia.
- rewrite Htime, Htime'. unfold time_stamps, step_size. simpl. rewrite Hdt.
  by rewrite !list_lookup_fmap, !lookup_seq_lt by lia.
Qed.

(** X19. With a supplied step size, and a library whose steady
  constructors read only the shape of the state, a run can be stopped and
  taken up again: the run of [n2] steps that starts from the last row of a
  run of [n1] steps has, at every index [t], the row [n1 + t] of the run of
  [n1 + n2] steps. *)
Theorem restart_from_last_row mode p x n1 n2 :
sf_shaped sf -> shape_only sf -> runnable sf mode p = true -> dt p = Some x ->
exists out1 last out2 out,
  res_of (call sf mode (with_Nt p n1)) = Ok out1
  /\ out_nlm out1 !! n1 = Some last
  /\ res_of (call sf mode (with_Nt (with_nlm0 p (Some last)) n2)) = Ok out2
  /\ res_of (call sf mode (with_Nt p (n1 + n2))) = Ok out
  /\ forall t, t <= n2 -> out_nlm out2 !! t = out_nlm out !! (n1 + t).
Proof.
intros Hsf Hshape Hrun Hdt.
pose proof (step_size_supplied (with_T mode) p x Hdt) as Hx.
destruct (run_rows mode (with_Nt p n1) x Hsf Hrun
            (step_size_defined_supplied (with_Nt p n1) x Hdt)
            (step_size_supplied (with_T mode) (with_Nt p n1) x Hdt))
  as (s1 & out1 & Hok1 & Hout1 & _ & _ & [Hlen1 Hall1] & Hrow1 & Hrec1).
destruct (run_rows mode (with_Nt p (n1 + n2)) x Hsf Hrun
            (step_size_defined_supplied (with_Nt p (n1 + n2)) x Hdt)
            (step_size_supplied (with_T mode) (with_Nt p (n1 + n2)) x Hdt))
  as (s & out & Hok & Hout & _ & _ & _ & Hrow & Hrec).
simpl in Hlen1.
destruct (lookup_lt_is_Some_2 (out_nlm out1) n1) as [last Hlast]; [lia|].
assert (Hll : length last = sf_nlm_len sf)
  by exact (Forall_lookup_1 _ _ _ _ Hall1 Hlast).
pose proof Hrun as Hparts. apply runnable_inv in Hparts as (Hm & Hn & Hreg).
assert (Hrun2 : runnable sf mode (with_Nt (with_nlm0 p (Some last)) n2) = true).
{ unfold runnable. rewrite Hm. simpl.
  apply andb_true_iff. split; [|exact Hreg].
  unfold nlm0_ok. simpl. apply bool_decide_eq_true_2. auto. }
destruct (run_rows mode (with_Nt (with_nlm0 p (Some last)) n2) x Hsf Hrun2
            (step_size_defined_supplied (with_Nt (with_nlm0 p (Some last)) n2) x Hdt)
            (step_size_supplied (with_T mode) (with_Nt (with_nlm0 p (Some last)) n2) x Hdt))
  as (s2 & out2 & Hok2 & Hout2 & _ & _ & _ & Hrow2 & Hrec2).
assert (Hstart : initial_row sf (with_Nt (with_nlm0 p (Some last)) n2) = last).
{ unfold initial_row. simpl.
  destruct (decide (length last = sf_nlm_len sf)); [|done].
  exact (call_rows_stored sf mode (with_Nt p n1) out1 n1 last Hsf Hrun
           (step_size_defined_supplied (with_Nt p n1) x Hdt) Hout1 Hlast). }
rewrite Hstart in Hrow2.
exists out1, last, out2, out. split; [done|]. split; [done|]. split; [done|].
split; [done|].
destruct (same_steady_operators _ _ _ _ _ Hok1 Hok eq_refl eq_refl eq_refl)
  as (ER1 & EC1 & EL1 & ES1).
assert (Hlen0 : length last = length (initial_row sf p)).
{ rewrite Hll. symmetry. by apply length_initial_row. }
destruct (steady_of_length p last (initial_row sf p)
            (strain_rate sf (with_T mode)) (spin sf (with_T mode)) (with_T mode)
            Hshape Hlen0) as (HR & HC & HL).
rewrite <- Hstart in HR, HC, HL.
destruct (same_steady_operators _ _ _ _ _ Hok2 Hok HR HC HL)
  as (ER2 & EC2 & EL2 & ES2).
set (f := next sf p x (pr_M_LROT s) (pr_M_CDRX s) (pr_M_REG s) (pr_S s)).
assert (Hmid : out_nlm out !! n1 = Some last).
{ rewrite <- Hlast. symmetry.
  replace n1 with (0 + n1) at 1 2 by lia.
  apply (rows_agree f (out_nlm out1) (out_nlm out) 0 0 n1); [| | |done].
  - by rewrite Hrow1, Hrow.
  - intros u Hu. apply (Hrec1 _ _ _ _ EL1 EC1 ER1 ES1 0 u); simpl; lia.
  - intros u Hu.
    apply (Hrec _ _ _ _ eq_refl eq_refl eq_refl eq_refl 0 u); simpl; lia. }
intros t Ht.
apply (rows_agree f (out_nlm out2) (out_nlm out) 0 n1 n2); [| | |done].
- by rewrite Hrow2, Hmid.
- intros u Hu. apply (Hrec2 _ _ _ _ EL2 EC2 ER2 ES2 0 u); simpl; lia.
- intros u Hu.
  apply (Hrec _ _ _ _ eq_refl eq_refl eq_refl eq_refl n1 u); simpl; lia.
Qed.
End Trajectories.

(** ** Runs in exact arithmetic *)

Section ZeroStep.
Context {C : Type} `{ZeroLaws C}.
Variable sf : specfab C.
Implicit Types (d mode : gmap string (pyval C)) (p : params C).

Lemma vscale_zero_l (w : list C) : vscale (of_nat 0) w = np_zeros (length w).
Proof.
  induction w as [|x w IH]; [reflexivity|].
  unfold vscale, np_zeros in *. simpl. rewrite cmul_0_l. f_equal. exact IH.
Qed.

Lemma euler_zero_step (A : list (list C)) (v : list C) :
  length A = length v -> euler (of_nat 0) A v = v.
Proof.
  intros HA. unfold euler. rewrite vscale_zero_l, length_matmul.
  by apply vadd_zeros.
Qed.

(** X20. With the supplied step size zero the state does not move, whatever
  the processes: in exact arithmetic every row of the returned history is
  the initial row. *)
Theorem zero_step_size_freezes_state mode p :
sf_shaped sf -> runnable sf mode p = true -> dt p = Some (of_nat 0) ->
exists out,
  res_of (call sf mode p) = Ok out
  /\ forall t, t <= Nt p -> out_nlm out !! t = Some (initial_row sf p).
Proof.
intros Hsf Hrun Hdt.
destruct (call_run sf mode p Hsf Hrun (step_size_defined_supplied p _ Hdt))
  as (s & nlm & _ & Hok & Hcall & [Hlen Hrows] & Hrow0 & Hrec).
eexists. split; [by rewrite Hcall|]. simpl.
intros t. induction t as [|t IH]; intros Ht; [done|].
destruct (Hrec (S t)) as (v & Hv & Hnext); [lia|].
simpl in Hv. rewrite Nat.sub_0_r in Hv. rewrite IH in Hv by lia.
injection Hv as <-. rewrite Hnext. f_equal. unfold next.
rewrite (ok_dt _ _ _ _ Hok). unfold step_size. rewrite Hdt.
rewrite euler_zero_step; [apply c64_initial_row|].
apply runnable_inv in Hrun as (_ & Hn & _).
rewrite (length_initial_row sf p Hn).
apply length_step_operator; try done.
- apply (ok_shape_LROT _ _ _ _ Hok).
- apply (ok_shape_CDRX _ _ _ _ Hok).
- apply (ok_shape_REG _ _ _ _ Hok).
- by apply length_initial_row.
Qed.
End ZeroStep.

Section Superposition.
Context {C : Type} `{SumLaws C}.
Variable sf : specfab C.
Implicit Types (d mode : gmap string (pyval C)) (p : params C).
Implicit Types (u v : list C).

Lemma cadd_shuffle (a b c e : C) :
  cadd (cadd a b) (cadd c e) = cadd (cadd a c) (cadd b e).
Proof.
  rewrite <- (cadd_assoc a b (cadd c e)), (cadd_assoc b c e), (cadd_comm b c).
  by rewrite <- (cadd_assoc c b e), (cadd_assoc a c (cadd b e)).
Qed.

Lemma dot_vadd (r u v : list C) :
  length u = length v -> dot r (vadd u v) = cadd (dot r u) (dot r v).
Proof.
  revert u v. induction r as [|a r IH]; intros [|x u] [|y v] Hlen;
    try discriminate; unfold dot, vadd, zero; simpl; try (by rewrite cadd_0_0).
  injection Hlen as Hlen. specialize (IH u v Hlen).
  unfold dot, vadd, zero in IH. rewrite IH, cmul_add_r. apply cadd_shuffle.
Qed.

Lemma matmul_vadd (A : list (list C)) u v :
  length u = length v -> matmul A (vadd u v) = vadd (matmul A u) (matmul A v).
Proof.
  intros Hlen. induction A as [|r A IH]; [reflexivity|].
  assert (Hcons : forall w, matmul (r :: A) w = dot r w :: matmul A w)
    by reflexivity.
  rewrite !Hcons, IH, dot_vadd by done. reflexivity.
Qed.

Lemma vscale_vadd (a : C) u v :
  vscale a (vadd u v) = vadd (vscale a u) (vscale a v).
Proof.
  revert v. induction u as [|x u IH]; intros [|y v]; try reflexivity.
  change (cmul a (cadd x y) :: vscale a (vadd u v)
          = cadd (cmul a x) (cmul a y) :: vadd (vscale a u) (vscale a v)).
  by rewrite IH, cmul_add_r.
Qed.

Lemma vadd_shuffle (a b c e : list C) :
  vadd (vadd a b) (vadd c e) = vadd (vadd a c) (vadd b e).
Proof.
  revert b c e. induction a as [|x a IH]; intros [|y b] [|z c] [|w e];
    try reflexivity.
  change (cadd (cadd x y) (cadd z w) :: vadd (vadd a b) (vadd c e)
          = cadd (cadd x z) (cadd y w) :: vadd (vadd a c) (vadd b e)).
  by rewrite IH, cadd_shuffle.
Qed.

Lemma c64_fmap_exact (v : list C) : c64 <$> v = v.
Proof.
  induction v as [|x v IH]; [done|]. by rewrite fmap_cons, c64_exact, IH.
Qed.

Lemma euler_vadd (a : C) (A : list (list C)) u v :
  length u = length v ->
  euler a A (vadd u v) = vadd (euler a A u) (euler a A v).
Proof.
  intros Hlen. unfold euler. by rewrite matmul_vadd, vscale_vadd, vadd_shuffle.
Qed.

(** X21. Without migration recrystallization the integrator is linear in
  the initial state.  For a library whose steady constructors read only the
  shape of the state, and in exact arithmetic, the run from the sum of two
  initial vectors has at every index the sum of the rows of the runs from
  each of them. *)
Theorem runs_superpose mode p u v :
sf_shaped sf -> shape_only sf ->
accepted sf mode (with_nlm0 p (Some u)) = true -> Gamma0 p = None ->
length u = sf_nlm_len sf -> length v = sf_nlm_len sf ->
exists out_u out_v out_w,
  res_of (call sf mode (with_nlm0 p (Some u))) = Ok out_u
  /\ res_of (call sf mode (with_nlm0 p (Some v))) = Ok out_v
  /\ res_of (call sf mode (with_nlm0 p (Some (vadd u v)))) = Ok out_w
  /\ forall t, t <= Nt p ->
       exists a b,
         out_nlm out_u !! t = Some a /\ out_nlm out_v !! t = Some b
         /\ out_nlm out_w !! t = Some (vadd a b).
Proof.
intros Hsf Hshape Hacc HG Hu Hv.
apply accepted_inv in Hacc as [Hrun Hdef].
pose proof Hrun as Hparts. apply runnable_inv in Hparts as (Hm & _ & Hreg).
assert (Hw : length (vadd u v) = sf_nlm_len sf) by (rewrite length_vadd; lia).
assert (Hrunnable : forall w, length w = sf_nlm_len sf ->
          runnable sf mode (with_nlm0 p (Some w)) = true).
{ intros w Hlw. unfold runnable. rewrite Hm. simpl.
  apply andb_true_iff. split; [|exact Hreg].
  unfold nlm0_ok. simpl. apply bool_decide_eq_true_2. auto. }
assert (Hstart : forall w, length w = sf_nlm_len sf ->
          initial_row sf (with_nlm0 p (Some w)) = w).
{ intros w Hlw. unfold initial_row. simpl.
  destruct (decide (length w = sf_nlm_len sf)); [|done].
  apply c64_fmap_exact. }
set (x := step_size sf (with_T mode) p).
destruct (run_rows sf mode (with_nlm0 p (Some u)) x Hsf (Hrunnable u Hu) Hdef eq_refl)
  as (su & out_u & Hoku & Houtu & _ & _ & [_ Hallu] & Hrowu & Hrecu).
destruct (run_rows sf mode (with_nlm0 p (Some v)) x Hsf (Hrunnable v Hv) Hdef eq_refl)
  as (sv & out_v & Hokv & Houtv & _ & _ & [_ Hallv] & Hrowv & Hrecv).
destruct (run_rows sf mode (with_nlm0 p (Some (vadd u v))) x Hsf
            (Hrunnable _ Hw) Hdef eq_refl)
  as (sw & out_w & Hokw & Houtw & _ & _ & _ & Hroww & Hrecw).
rewrite Hstart in Hrowu, Hrowv, Hroww by done.
exists out_u, out_v, out_w. split; [done|]. split; [done|]. split; [done|].
assert (Hops : forall w s, length w = sf_nlm_len sf ->
          prepared_ok sf (with_T mode) (with_nlm0 p (Some w)) s ->
          pr_M_REG s = pr_M_REG sw /\ pr_M_CDRX s = pr_M_CDRX sw
          /\ pr_M_LROT s = pr_M_LROT sw /\ pr_S s = pr_S sw).
{ intros w s Hlw Hoks.
  destruct (steady_of_length sf p w (vadd u v)
              (strain_rate sf (with_T mode)) (spin sf (with_T mode)) (with_T mode)
              Hshape) as (HR & HC & HL); [by rewrite Hlw, Hw|].
  rewrite <- (Hstart w Hlw), <- (Hstart (vadd u v) Hw) in HR, HC, HL.
  exact (same_steady_operators sf _ _ _ _ _ Hoks Hokw HR HC HL). }
destruct (Hops u su Hu Hoku) as (ERu & ECu & ELu & ESu).
destruct (Hops v sv Hv Hokv) as (ERv & ECv & ELv & ESv).
set (A := madd (madd (madd (pr_M_LROT sw) (pr_M_CDRX sw)) (pr_M_REG sw)) (M_zero sf)).
assert (Hnext : forall w,
          next sf p x (pr_M_LROT sw) (pr_M_CDRX sw) (pr_M_REG sw) (pr_S sw) w
          = euler x A w).
{ intros w. unfold next, step_operator, ddrx_term.
  by rewrite HG, c64_fmap_exact. }
intros t. induction t as [|t IH]; intros Ht.
- exists u, v. auto.
- destruct IH as (a & b & Ha & Hb & Hab); [lia|].
  destruct (Hrecu _ _ _ _ ELu ECu ERu ESu 0 (S t)) as (a' & Ha' & Hfa); [simpl; lia|lia|].
  destruct (Hrecv _ _ _ _ ELv ECv ERv ESv 0 (S t)) as (b' & Hb' & Hfb); [simpl; lia|lia|].
  destruct (Hrecw _ _ _ _ eq_refl eq_refl eq_refl eq_refl 0 (S t))
    as (c' & Hc' & Hfc); [simpl; lia|lia|].
  simpl in Ha', Hb', Hc', Hfa, Hfb, Hfc. rewrite Nat.sub_0_r in Ha', Hb', Hc'.
  rewrite Ha in Ha'. rewrite Hb in Hb'. rewrite Hab in Hc'.
  injection Ha' as <-. injection Hb' as <-. injection Hc' as <-.
  change (next sf (with_nlm0 p (Some u))) with (next sf p) in Hfa.
  change (next sf (with_nlm0 p (Some v))) with (next sf p) in Hfb.
  change (next sf (with_nlm0 p (Some (vadd u v)))) with (next sf p) in Hfc.
  rewrite Hnext in Hfa, Hfb, Hfc.
  exists (euler x A a), (euler x A b). split; [done|]. split; [done|].
  rewrite Hfc. f_equal. apply euler_vadd.
  rewrite (Forall_lookup_1 _ _ _ _ Hallu Ha), (Forall_lookup_1 _ _ _ _ Hallv Hb).
  done.
Qed.
End Superposition.

(** ** The further properties on the exact instance *)

#[global] Instance exact_sum_laws : SumLaws Qc.
Proof.
  split.
  - apply Qcplus_comm.
  - apply Qcplus_assoc.
  - reflexivity.
  - apply Qcmult_plus_distr_r.
  - reflexivity.
Qed.

Lemma call_returns_iff_runnable_witness :
  sf_shaped Exact.sf
  /\ step_size_defined Exact.quiet = true
  /\ (exists out, res_of (call Exact.sf Exact.ss_mode Exact.quiet) = Ok out)
  /\ (exists e, res_of (call Exact.sf Exact.ss_mode Exact.short_start) = Raise e).
Proof.
  split; [exact exact_sf_shaped|]. split; [reflexivity|]. split.
  - apply (proj1 (call_returns_iff_runnable Exact.sf Exact.ss_mode Exact.quiet
                    exact_sf_shaped eq_refl)).
    reflexivity.
  - apply (proj2 (call_returns_iff_runnable Exact.sf Exact.ss_mode Exact.short_start
                    exact_sf_shaped eq_refl)).
    reflexivity.
Defined.

Lemma missing_type_raises_key_error_witness :
  Exact.untyped_mode !! "type" = None
  /\ call Exact.sf Exact.untyped_mode Exact.quiet
     = (Raise (KeyError "type"), with_T Exact.untyped_mode, []).
Proof.
  assert (Hty : Exact.untyped_mode !! "type" = None) by reflexivity.
  split; [exact Hty|].
  exact (missing_type_raises_key_error Exact.sf Exact.untyped_mode Exact.quiet Hty).
Defined.

Lemma missing_geometry_raises_key_error_witness :
  Exact.ps_mode_without_r !! "type" = Some (PStr "ps")
  /\ missing_geometry Exact.ps_mode_without_r (PStr "ps") = Some "r"
  /\ step_size_defined Exact.quiet = true
  /\ call Exact.sf Exact.ps_mode_without_r Exact.quiet
     = (Raise (KeyError "r"), with_T Exact.ps_mode_without_r, []).
Proof.
  assert (Hty : Exact.ps_mode_without_r !! "type" = Some (PStr (C:=Qc) "ps"))
    by reflexivity.
  assert (Hk : missing_geometry Exact.ps_mode_without_r (PStr "ps") = Some "r")
    by reflexivity.
  split; [exact Hty|]. split; [exact Hk|]. split; [reflexivity|].
  exact (missing_geometry_raises_key_error Exact.sf Exact.ps_mode_without_r
           Exact.quiet (PStr "ps") "r" Hty Hk eq_refl).
Defined.

Lemma gradient_series_returned_witness :
  sf_shaped Exact.sf
  /\ accepted Exact.sf Exact.ss_mode Exact.paced = true
  /\ exists out,
       res_of (call Exact.sf Exact.ss_mode Exact.paced) = Ok out
       /\ length (out_F out) = 6
       /\ out_F out !! 5
          = Some (gradient_at Exact.sf (with_T Exact.ss_mode)
                    (cmul (Q2Qc (1 # 50)) (of_nat 5)))
       /\ out_ugrad out = velocity_gradient Exact.sf (with_T Exact.ss_mode).
Proof.
  split; [exact exact_sf_shaped|]. split; [reflexivity|].
  destruct (gradient_series_returned Exact.sf Exact.ss_mode Exact.paced
              exact_sf_shaped eq_refl) as (out & Hout & Hlen & HF & Hu & Hdt).
  exists out. split; [exact Hout|]. split; [exact Hlen|]. split; [|exact Hu].
  rewrite <- (proj1 (Hdt (Q2Qc (1 # 50)) eq_refl)). apply (HF 5). simpl. lia.
Defined.

Lemma history_shape_and_row_stores_witness :
  sf_shaped Exact.sf
  /\ accepted Exact.sf Exact.ss_mode Exact.busy = true
  /\ exists out,
       res_of (call Exact.sf Exact.ss_mode Exact.busy) = Ok out
       /\ shape 6 6 (out_nlm out)
       /\ stored_rows (log_of (call Exact.sf Exact.ss_mode Exact.busy)) = [1; 2; 3; 4; 5].
Proof.
  split; [exact exact_sf_shaped|]. split; [reflexivity|].
  destruct (history_shape_and_row_stores Exact.sf Exact.ss_mode Exact.busy
              exact_sf_shaped eq_refl) as (out & Hout & Hshape & _ & Hstores).
  exists out. split; [exact Hout|]. split; [exact Hshape|exact Hstores].
Defined.

Lemma zero_steps_return_initial_row_witness :
  sf_shaped Exact.sf
  /\ accepted Exact.sf Exact.ss_mode (with_Nt Exact.paced 0) = true
  /\ Nt (with_Nt Exact.paced 0) = 0
  /\ exists out,
       res_of (call Exact.sf Exact.ss_mode (with_Nt Exact.paced 0)) = Ok out
       /\ out_nlm out = [initial_row Exact.sf (with_Nt Exact.paced 0)]
       /\ stored_rows (log_of (call Exact.sf Exact.ss_mode (with_Nt Exact.paced 0))) = [].
Proof.
  split; [exact exact_sf_shaped|]. split; [reflexivity|]. split; [reflexivity|].
  destruct (zero_steps_return_initial_row Exact.sf Exact.ss_mode
              (with_Nt Exact.paced 0) exact_sf_shaped eq_refl eq_refl)
    as (out & x & Hout & _ & Hnlm & _ & _ & Hstores).
  exists out. split; [exact Hout|]. split; [exact Hnlm|exact Hstores].
Defined.

Lemma progress_bar_reports_witness :
  verbose (with_flags Exact.busy false false) = false
  /\ Forall (fun ev => is_bar ev = false)
       (log_of (call Exact.sf Exact.ss_mode (with_flags Exact.busy false false)))
  /\ sf_shaped Exact.sf
  /\ accepted Exact.sf Exact.ss_mode Exact.busy = true
  /\ length (List.filter is_bar (log_of (call Exact.sf Exact.ss_mode Exact.busy))) = 6.
Proof.
  split; [reflexivity|]. split.
  - exact (proj1 (progress_bar_reports Exact.sf Exact.ss_mode
                    (with_flags Exact.busy false false)) eq_refl).
  - split; [exact exact_sf_shaped|]. split; [reflexivity|].
    exact (proj2 (progress_bar_reports Exact.sf Exact.ss_mode Exact.busy)
             exact_sf_shaped eq_refl).
Defined.

Lemma migration_operator_once_per_step_witness :
  Gamma0 Exact.quiet = None
  /\ Forall (fun ev => is_migration_call ev = false)
       (log_of (call Exact.sf Exact.ss_mode Exact.quiet))
  /\ sf_shaped Exact.sf
  /\ accepted Exact.sf Exact.ss_mode Exact.busy = true
  /\ length (List.filter is_migration_call
               (log_of (call Exact.sf Exact.ss_mode Exact.busy))) = 5.
Proof.
  split; [reflexivity|]. split.
  - exact (proj1 (migration_operator_once_per_step Exact.sf Exact.ss_mode Exact.quiet)
             eq_refl).
  - split; [exact exact_sf_shaped|]. split; [reflexivity|].
    exact (proj2 (migration_operator_once_per_step Exact.sf Exact.ss_mode Exact.busy)
             exact_sf_shaped eq_refl).
Defined.

Lemma regularization_paths_exclusive_witness :
  nu Exact.quiet = None
  /\ regexpo Exact.quiet = None
  /\ Forall (fun ev => ev <> EvOperator OpREG /\ ev <> EvOperator OpLmat)
       (log_of (call Exact.sf Exact.ss_mode Exact.quiet))
  /\ Forall (fun ev => ev <> EvOperator OpREG)
       (log_of (call Exact.sf Exact.ss_mode Exact.busy)).
Proof.
  split; [reflexivity|]. split; [reflexivity|]. split.
  - exact (proj2 (regularization_paths_exclusive Exact.sf Exact.ss_mode Exact.quiet)
             eq_refl eq_refl).
  - exact (proj1 (regularization_paths_exclusive Exact.sf Exact.ss_mode Exact.busy)).
Defined.

Lemma strain_target_unused_with_step_size_witness :
  dt Exact.paced = Some (Q2Qc (1 # 50))
  /\ call Exact.sf Exact.ss_mode (with_strain Exact.paced (Exact.qnat 7))
     = call Exact.sf Exact.ss_mode Exact.paced.
Proof.
  split; [reflexivity|].
  exact (strain_target_unused_with_step_size Exact.sf Exact.ss_mode Exact.paced
           (Q2Qc (1 # 50)) (Exact.qnat 7) eq_refl).
Defined.

Lemma zeta_unused_without_iota_witness :
  iota Exact.quiet = None
  /\ call Exact.sf Exact.ss_mode (with_zeta Exact.quiet (Exact.qnat 3))
     = call Exact.sf Exact.ss_mode Exact.quiet.
Proof.
  split; [reflexivity|].
  exact (zeta_unused_without_iota Exact.sf Exact.ss_mode Exact.quiet (Exact.qnat 3)
           eq_refl).
Defined.

Lemma result_depends_on_keys_read_witness :
  Forall (fun k => Exact.annotated_mode !! k = Exact.ss_mode !! k) keys_read
  /\ Exact.annotated_mode !! "note" = Some (PStr "run 7")
  /\ Exact.ss_mode !! "note" = None
  /\ res_of (call Exact.sf Exact.annotated_mode Exact.busy)
     = res_of (call Exact.sf Exact.ss_mode Exact.busy).
Proof.
  assert (Hkeys : Forall (fun k => Exact.annotated_mode !! k = Exact.ss_mode !! k)
                    keys_read).
  { unfold keys_read. repeat constructor. }
  split; [exact Hkeys|]. split; [reflexivity|]. split; [reflexivity|].
  exact (result_depends_on_keys_read Exact.sf Exact.annotated_mode Exact.ss_mode
           Exact.busy Hkeys).
Defined.

Lemma mode_names_are_synonyms_witness :
  Exact.ss_mode !! "type" = Some (PStr "ss")
  /\ res_of (call Exact.sf (<["type" := PStr "simpleshear"]> Exact.ss_mode) Exact.busy)
     = res_of (call Exact.sf Exact.ss_mode Exact.busy).
Proof.
  assert (Hty : Exact.ss_mode !! "type" = Some (PStr (C:=Qc) "ss")) by reflexivity.
  split; [exact Hty|].
  exact (mode_names_are_synonyms Exact.sf Exact.ss_mode Exact.busy (PStr "ss")
           (PStr "simpleshear") Hty eq_refl).
Defined.

Lemma zero_step_size_freezes_state_witness :
  sf_shaped Exact.sf
  /\ runnable Exact.sf Exact.ss_mode Exact.frozen = true
  /\ dt Exact.frozen = Some (of_nat 0)
  /\ exists out,
       res_of (call Exact.sf Exact.ss_mode Exact.frozen) = Ok out
       /\ out_nlm out !! 5 = Some (initial_row Exact.sf Exact.frozen).
Proof.
  assert (Hdt : dt Exact.frozen = Some (of_nat 0)) by reflexivity.
  split; [exact exact_sf_shaped|]. split; [reflexivity|]. split; [exact Hdt|].
  destruct (zero_step_size_freezes_state Exact.sf Exact.ss_mode Exact.frozen
              exact_sf_shaped eq_refl Hdt) as (out & Hout & Hrows).
  exists out. split; [exact Hout|]. apply (Hrows 5). simpl. lia.
Defined.

Lemma longer_run_extends_shorter_witness :
  sf_shaped Exact.sf
  /\ runnable Exact.sf Exact.ss_mode Exact.paced = true
  /\ dt Exact.paced = Some (Q2Qc (1 # 50))
  /\ exists out out',
       res_of (call Exact.sf Exact.ss_mode Exact.paced) = Ok out
       /\ res_of (call Exact.sf Exact.ss_mode (with_Nt Exact.paced 8)) = Ok out'
       /\ out_nlm out' !! 5 = out_nlm out !! 5.
Proof.
  split; [exact exact_sf_shaped|]. split; [reflexivity|]. split; [reflexivity|].
  destruct (longer_run_extends_shorter Exact.sf Exact.ss_mode Exact.paced
              (Q2Qc (1 # 50)) 3 exact_sf_shaped eq_refl eq_refl)
    as (out & out' & Hout & Hout' & Hrows).
  exists out, out'. split; [exact Hout|]. split; [exact Hout'|].
  apply (Hrows 5). simpl. lia.
Defined.

Lemma restart_from_last_row_witness :
  sf_shaped Exact.sf
  /\ shape_only Exact.sf
  /\ runnable Exact.sf Exact.ss_mode Exact.paced = true
  /\ dt Exact.paced = Some (Q2Qc (1 # 50))
  /\ exists out1 last out2 out,
       res_of (call Exact.sf Exact.ss_mode (with_Nt Exact.paced 2)) = Ok out1
       /\ out_nlm out1 !! 2 = Some last
       /\ res_of (call Exact.sf Exact.ss_mode
                    (with_Nt (with_nlm0 Exact.paced (Some last)) 3)) = Ok out2
       /\ res_of (call Exact.sf Exact.ss_mode (with_Nt Exact.paced 5)) = Ok out
       /\ out_nlm out2 !! 3 = out_nlm out !! 5.
Proof.
  split; [exact exact_sf_shaped|]. split; [exact exact_shape_only|].
  split; [reflexivity|]. split; [reflexivity|].
  destruct (restart_from_last_row Exact.sf Exact.ss_mode Exact.paced
              (Q2Qc (1 # 50)) 2 3 exact_sf_shaped exact_shape_only eq_refl eq_refl)
    as (out1 & last & out2 & out & H1 & Hlast & H2 & Hout & Hrows).
  exists out1, last, out2, out. split; [exact H1|]. split; [exact Hlast|].
  split; [exact H2|]. split; [exact Hout|]. apply (Hrows 3). lia.
Defined.

Lemma runs_superpose_witness :
  sf_shaped Exact.sf
  /\ shape_only Exact.sf
  /\ accepted Exact.sf Exact.ss_mode (with_nlm0 Exact.linear (Some Exact.six)) = true
  /\ Gamma0 Exact.linear = None
  /\ length Exact.six = sf_nlm_len Exact.sf
  /\ length Exact.six' = sf_nlm_len Exact.sf
  /\ exists out_u out_v out_w,
       res_of (call Exact.sf Exact.ss_mode (with_nlm0 Exact.linear (Some Exact.six)))
       = Ok out_u
       /\ res_of (call Exact.sf Exact.ss_mode (with_nlm0 Exact.linear (Some Exact.six')))
          = Ok out_v
       /\ res_of (call Exact.sf Exact.ss_mode
                    (with_nlm0 Exact.linear (Some (vadd Exact.six Exact.six'))))
          = Ok out_w
       /\ exists a b,
            out_nlm out_u !! 5 = Some a /\ out_nlm out_v !! 5 = Some b
            /\ out_nlm out_w !! 5 = Some (vadd a b).
Proof.
  split; [exact exact_sf_shaped|]. split; [exact exact_shape_only|].
  split; [reflexivity|]. split; [reflexivity|]. split; [reflexivity|].
  split; [reflexivity|].
  destruct (runs_superpose Exact.sf Exact.ss_mode Exact.linear Exact.six Exact.six'
              exact_sf_shaped exact_shape_only eq_refl eq_refl eq_refl eq_refl)
    as (out_u & out_v & out_w & Hu & Hv & Hw & Hrows).
  exists out_u, out_v, out_w. split; [exact Hu|]. split; [exact Hv|].
  split; [exact Hw|]. apply (Hrows 5). simpl. lia.
Defined.

Lemma refused_initial_vector_witness :
  mode_ok Exact.ss_mode = true
  /\ nlm0_ok Exact.sf Exact.short_start_custom = false
  /\ step_size_defined Exact.short_start_custom = true
  /\ exists msg,
       call Exact.sf Exact.ss_mode Exact.short_start_custom
       = (Raise (ValueError msg), with_T Exact.ss_mode,
          [EvAlloc BufF 6; EvAlloc BufTime 6; EvAlloc BufNlm 6]).
Proof.
  split; [reflexivity|]. split; [reflexivity|]. split; [reflexivity|].
  destruct (refused_initial_vector Exact.sf Exact.ss_mode Exact.short_start_custom
              eq_refl eq_refl eq_refl) as (e & He & msg & ->).
  exists msg. exact He.
Defined.

Lemma omitted_time_scale_is_one_witness :
  Exact.ss_mode_no_T !! "T" = None
  /\ call Exact.sf (<["T" := PNum (of_nat 1)]> Exact.ss_mode_no_T) Exact.busy
     = call Exact.sf Exact.ss_mode_no_T Exact.busy.
Proof.
  assert (HT : Exact.ss_mode_no_T !! "T" = None) by reflexivity.
  split; [exact HT|].
  exact (omitted_time_scale_is_one Exact.sf Exact.ss_mode_no_T Exact.busy HT).
Defined.

Lemma omitted_processes_ignore_library_witness :
  same_library_for Exact.linear Exact.sf Exact.sf_other_migration
  /\ sf_M_DDRX Exact.sf Exact.six [] <> sf_M_DDRX Exact.sf_other_migration Exact.six []
  /\ call Exact.sf Exact.ss_mode Exact.linear
     = call Exact.sf_other_migration Exact.ss_mode Exact.linear.
Proof.
  assert (Hsame : same_library_for Exact.linear Exact.sf Exact.sf_other_migration).
  { unfold same_library_for. repeat split; try reflexivity.
    simpl. intros [g Hg]. discriminate. }
  split; [exact Hsame|]. split; [vm_compute; discriminate|].
  exact (omitted_processes_ignore_library Exact.sf Exact.sf_other_migration
           Exact.ss_mode Exact.linear Hsame).
Defined.

Lemma custom_regularization_in_a_run_witness :
  sf_shaped Exact.sf
  /\ accepted Exact.sf Exact.ss_mode Exact.busy = true
  /\ regexpo Exact.busy = Some (Exact.qnat 2)
  /\ nu Exact.busy = Some (Q2Qc (1 # 100))
  /\ exists s,
       res_of (setup Exact.sf Exact.busy Exact.ss_mode) = Ok s
       /\ pr_M_REG s
          = custom_operator Exact.sf (Q2Qc (1 # 100)) (Exact.qnat 2)
              (strain_rate Exact.sf (with_T Exact.ss_mode)).
Proof.
  split; [exact exact_sf_shaped|]. split; [reflexivity|]. split; [reflexivity|].
  split; [reflexivity|].
  destruct (custom_regularization_in_a_run Exact.sf Exact.ss_mode Exact.busy
              (Q2Qc (1 # 100)) (Exact.qnat 2) exact_sf_shaped eq_refl eq_refl eq_refl)
    as (s & Hs & _ & Hop & _).
  exists s. split; [exact Hs|exact Hop].
Defined.
